(** * Scholarship rule engine (Lab.py): the rule-matching core

    A shallow embedding of [evaluate_rule] and [run_rules] of [Lab.py],
    together with the part of Python's object model these two functions
    rely on: JSON scalars, [float(...)], the rich comparisons of the
    [operator] module, the stable [sorted] builtin and list objects that
    are shared by reference.

    Data model.  A rule is a JSON object with the optional keys [name],
    [priority] (an integer), [conditions] (a list of lists of scalars)
    and [action] (an object).  The facts are a dictionary from strings to
    scalars.  A condition may have any length and any scalar in any
    position.  The module [Json] has the same two functions on rule
    objects as they are decoded, with any JSON value as conditions and
    any scalar as priority, and the exceptions these let through; on
    rules of scalars with integer priorities both agree.
    Strings stand for their UTF-8 bytes, whose order is the order of the
    code points; [float] reads the decimal digits and the white space
    of every script. *)

From Stdlib Require Import ZArith String Ascii List Bool Lia.
From Stdlib Require Import PrimFloat FloatOps SpecFloat DecimalString.
From stdpp Require Import base option list sorting gmap strings fin_maps.

Local Open Scope Z_scope.

(** ** Python floats

    A Python [float] is an IEEE 754 binary64 number: the kernel's primitive
    [float].  The conversions below are the ones [float(x)] performs. *)

Module PyFloat.

(** [int.__float__]: the nearest binary64 number (ties to even), or
    [None] for [OverflowError] when the rounded value is not finite. *)
Definition of_int (z : Z) : option float :=
  match binary_normalize prec emax z 0 false with
  | S754_infinity _ => None
  | sf => Some (SF2Prim sf)
  end.

(** The binary64 number nearest to [(-1)^neg * m * 10^e] (ties to even).
    Overflow gives an infinity and underflow a zero, as [float(str)] does.
    For a negative [e] the quotient [m * 2^k / 10^(-e)] is taken with at
    least 64 bits and rounded once, from its remainder. *)
Definition of_decimal (neg : bool) (m : Z) (e : Z) : float :=
  if (m <=? 0)%Z then (if neg then neg_zero else zero)
  else if (0 <=? e)%Z then
    SF2Prim (binary_normalize prec emax (cond_Zopp neg (m * 10 ^ e)) 0 neg)
  else
    let d := 10 ^ (- e) in
    let k := Z.max 0 (Zdigits2 d - Zdigits2 m + 64) in
    let '(q, r) := Z.div_eucl (Z.shiftl m k) d in
    SF2Prim (binary_round_aux prec emax neg q (- k) (new_location d r)).

Definition is_space (c : ascii) : bool :=
  let n := nat_of_ascii c in
  ((9 <=? n)%nat && (n <=? 13)%nat) || (n =? 32)%nat.

Definition is_digit (c : ascii) : bool :=
  let n := nat_of_ascii c in (48 <=? n)%nat && (n <=? 57)%nat.

Definition digit_val (c : ascii) : Z := Z.of_nat (nat_of_ascii c) - 48.

Definition lower (c : ascii) : ascii :=
  let n := nat_of_ascii c in
  if (65 <=? n)%nat && (n <=? 90)%nat then ascii_of_nat (n + 32) else c.

Fixpoint lstrip (cs : list ascii) : list ascii :=
  match cs with
  | c :: cs' => if is_space c then lstrip cs' else cs
  | [] => []
  end.

Definition strip (cs : list ascii) : list ascii :=
  rev (lstrip (rev (lstrip cs))).

(** An underscore is accepted only between two digits; the accepted ones
    are dropped.  [prev] is the character before [cs], if any. *)
Fixpoint drop_underscores (prev : option ascii) (cs : list ascii)
  : option (list ascii) :=
  match cs with
  | [] =>
      match prev with
      | Some "_"%char => None
      | _ => Some []
      end
  | c :: cs' =>
      if Ascii.eqb c "_" then
        match prev with
        | Some p => if is_digit p then drop_underscores (Some c) cs' else None
        | None => None
        end
      else
        match prev with
        | Some "_"%char =>
            if is_digit c then cons c <$> drop_underscores (Some c) cs' else None
        | _ => cons c <$> drop_underscores (Some c) cs'
        end
  end.

(** The longest prefix of decimal digits, and the rest. *)
Fixpoint span_digits (cs : list ascii) : list ascii * list ascii :=
  match cs with
  | c :: cs' =>
      if is_digit c then let '(ds, r) := span_digits cs' in (c :: ds, r)
      else ([], cs)
  | [] => ([], [])
  end.

Definition digits_val (ds : list ascii) : Z :=
  fold_left (fun acc c => 10 * acc + digit_val c) ds 0.

Definition take_sign (cs : list ascii) : bool * list ascii :=
  match cs with
  | "-"%char :: r => (true, r)
  | "+"%char :: r => (false, r)
  | _ => (false, cs)
  end.

(** The exponent part [e[+-]ddd]; a malformed exponent is not consumed. *)
Definition take_exponent (cs : list ascii) : Z * list ascii :=
  match cs with
  | c :: r =>
      if Ascii.eqb (lower c) "e" then
        let '(neg, r') := take_sign r in
        let '(ds, rest) := span_digits r' in
        match ds with
        | [] => (0, cs)
        | _ => (cond_Zopp neg (digits_val ds), rest)
        end
      else (0, cs)
  | [] => (0, [])
  end.

Definition inf_chars : list ascii := list_ascii_of_string "inf".
Definition infinity_chars : list ascii := list_ascii_of_string "infinity".
Definition nan_chars : list ascii := list_ascii_of_string "nan".

Definition chars_eqb (a b : list ascii) : bool :=
  String.eqb (string_of_list_ascii a) (string_of_list_ascii b).

(** *** Characters

    A string stands for its UTF-8 bytes.  [len], iteration and [float]
    work on its characters (code points); a byte that belongs to no
    well-formed sequence counts as a character of its own. *)

Definition is_continuation (b : ascii) : bool :=
  let n := nat_of_ascii b in (128 <=? n)%nat && (n <? 192)%nat.

(** The number of continuation bytes a leading byte announces. *)
Definition continuation_bytes (b : ascii) : nat :=
  let n := nat_of_ascii b in
  if (192 <=? n)%nat && (n <? 224)%nat then 1
  else if (224 <=? n)%nat && (n <? 240)%nat then 2
  else if (240 <=? n)%nat && (n <? 248)%nat then 3
  else 0.

(** The characters of a byte sequence, each as its bytes; [cur] is the
    character begun and [need] the number of bytes it still lacks. *)
Fixpoint characters_from (need : nat) (cur : list ascii) (bs : list ascii)
  : list (list ascii) :=
  match bs with
  | [] =>
      match cur with
      | [] => []
      | _ => [cur]
      end
  | b :: r =>
      if (0 <? need)%nat && is_continuation b then
        match need with
        | 1%nat => (cur ++ [b]) :: characters_from 0 [] r
        | _ => characters_from (Nat.pred need) (cur ++ [b]) r
        end
      else
        match cur with
        | [] => []
        | _ => [cur]
        end ++
        match continuation_bytes b with
        | O => [b] :: characters_from 0 [] r
        | k => characters_from k [b] r
        end
  end.

Definition characters (s : string) : list (list ascii) :=
  characters_from 0 [] (list_ascii_of_string s).

(** The code point of a character; 65533 (the replacement character)
    for bytes that are no well-formed sequence. *)
Definition code_point (c : list ascii) : N :=
  match c with
  | [] => 65533
  | b :: conts =>
      let n := N_of_ascii b in
      if (length conts =? continuation_bytes b)%nat then
        match conts with
        | [] => if (n <? 128)%N then n else 65533%N
        | _ =>
            fold_left
              (fun acc cb => (acc * 64 + (N_of_ascii cb - 128))%N) conts
              (n mod 2 ^ (6 - N.of_nat (length conts)))%N
        end
      else 65533%N
  end.

(** The white space of Unicode above ASCII ([str.isspace]). *)
Definition unicode_space (c : N) : bool :=
  ((c =? 133) || (c =? 160) || (c =? 5760)
   || ((8192 <=? c) && (c <=? 8202))
   || (c =? 8232) || (c =? 8233) || (c =? 8239) || (c =? 8287)
   || (c =? 12288))%N.

(** The code points of the digit zero of every decimal number system
    above ASCII (Unicode 14.0, the tables of CPython 3.11); the nine
    other digits follow each of them. *)
Definition decimal_zeros : list N :=
  [
    1632; 1776; 1984; 2406; 2534; 2662; 2790; 2918;
    3046; 3174; 3302; 3430; 3558; 3664; 3792; 3872;
    4160; 4240; 6112; 6160; 6470; 6608; 6784; 6800;
    6992; 7088; 7232; 7248; 42528; 43216; 43264; 43472;
    43504; 43600; 44016; 65296; 66720; 68912; 69734; 69872;
    69942; 70096; 70384; 70736; 70864; 71248; 71360; 71472;
    71904; 72016; 72784; 73040; 73120; 92768; 92864; 93008;
    120782; 120792; 120802; 120812; 120822; 123200; 123632; 125264;
    130032
  ]%N.

(** The value of a decimal digit of any script. *)
Definition unicode_decimal (c : N) : option N :=
  match List.filter (fun z => (z <=? c) && (c <? z + 10))%N decimal_zeros with
  | z :: _ => Some (c - z)%N
  | [] => None
  end.

(** The ASCII text [float] parses: characters below 127 as they are, a
    space for white space, the ASCII digit for a decimal digit, and a
    question mark, with nothing after it, for the first other character. *)
Fixpoint transform_characters (cps : list N) : list ascii :=
  match cps with
  | [] => []
  | c :: r =>
      if (c <? 127)%N then ascii_of_N c :: transform_characters r
      else if unicode_space c then " "%char :: transform_characters r
      else
        match unicode_decimal c with
        | Some d => ascii_of_N (48 + d) :: transform_characters r
        | None => ["?"%char]
        end
  end.

(** An ASCII string is taken as it is. *)
Definition decimal_and_space_to_ascii (s : string) : list ascii :=
  let cps := code_point <$> characters s in
  if forallb (fun c => (c <? 128)%N) cps then list_ascii_of_string s
  else transform_characters cps.

(** [float(s)] for a string: [None] stands for [ValueError].  The
    digits and white space of other scripts are brought to ASCII, the
    underscores are checked and dropped, then the white space at both
    ends is skipped and the rest has to be a number as a whole. *)
Definition of_string (s : string) : option float :=
  cs ← drop_underscores None (decimal_and_space_to_ascii s);
  let '(neg, body) := take_sign (strip cs) in
  let low := map lower body in
  if chars_eqb low inf_chars || chars_eqb low infinity_chars then
    Some (if neg then neg_infinity else infinity)
  else if chars_eqb low nan_chars then Some nan
  else
    let '(ip, r1) := span_digits body in
    let '(fp, r2) :=
      match r1 with
      | "."%char :: r => span_digits r
      | _ => ([], r1)
      end in
    match ip ++ fp with
    | [] => None
    | ds =>
        let '(ex, r3) := take_exponent r2 in
        match r3 with
        | [] => Some (of_decimal neg (digits_val ds)
                        (ex - Z.of_nat (length fp)))
        | _ => None
        end
    end.

(** The exact order between an integer and a float, as Python compares
    them (no rounding of the integer); [None] when the float is a NaN. *)
Definition compare_int (z : Z) (f : float) : option comparison :=
  match Prim2SF f with
  | S754_nan => None
  | S754_infinity s => Some (if s then Gt else Lt)
  | S754_zero _ => Some (z ?= 0)
  | S754_finite s m e =>
      let v := cond_Zopp s (Zpos m) in
      Some (if (0 <=? e)%Z then z ?= v * 2 ^ e else z * 2 ^ (- e) ?= v)
  end.

Definition compare_float (a b : float) : option comparison :=
  match PrimFloat.compare a b with
  | FEq => Some Eq
  | FLt => Some Lt
  | FGt => Some Gt
  | FNotComparable => None
  end.

End PyFloat.

(** ** JSON scalars, exceptions and the comparison operators *)

(** The scalars a fact or a condition element can be once the rules and
    the facts are decoded from JSON: [null], booleans, integers of any
    size, floats and strings. *)
Inductive value :=
  | VNone
  | VBool (b : bool)
  | VInt (z : Z)
  | VFloat (f : float)
  | VStr (s : string).

Inductive exn := TypeError | ValueError | OverflowError | KeyError.

(** The outcome of an expression that may raise. *)
Inductive result (A : Type) :=
  | Ok (a : A)
  | Raise (e : exn).
Arguments Ok {A} a.
Arguments Raise {A} e.

#[global] Instance result_ret : MRet result := fun A a => Ok a.
#[global] Instance result_bind : MBind result := fun A B k m =>
  match m with
  | Ok a => k a
  | Raise e => Raise e
  end.

Definition of_option {A} (e : exn) (o : option A) : result A :=
  match o with
  | Some a => Ok a
  | None => Raise e
  end.

(** [isinstance(v, (int, float))]; [bool] is a subclass of [int]. *)
Definition isinstance_int_float (v : value) : bool :=
  match v with
  | VBool _ | VInt _ | VFloat _ => true
  | VNone | VStr _ => false
  end.

(** [float(v)]. *)
Definition py_float (v : value) : result float :=
  match v with
  | VNone => Raise TypeError
  | VBool b => Ok (if b then one else zero)
  | VInt z => of_option OverflowError (PyFloat.of_int z)
  | VFloat f => Ok f
  | VStr s => of_option ValueError (PyFloat.of_string s)
  end.

(** The numeric tower shared by [bool], [int] and [float]. *)
Inductive number :=
  | NInt (z : Z)
  | NFloat (f : float).

Definition as_number (v : value) : option number :=
  match v with
  | VBool b => Some (NInt (if b then 1 else 0))
  | VInt z => Some (NInt z)
  | VFloat f => Some (NFloat f)
  | VNone | VStr _ => None
  end.

(** [None] when one side is a NaN. *)
Definition number_compare (a b : number) : option comparison :=
  match a, b with
  | NInt x, NInt y => Some (x ?= y)
  | NInt x, NFloat g => PyFloat.compare_int x g
  | NFloat f, NInt y => CompOpp <$> PyFloat.compare_int y f
  | NFloat f, NFloat g => PyFloat.compare_float f g
  end.

(** [a == b]: never raises; values of unrelated types are unequal. *)
Definition py_eq (a b : value) : bool :=
  match as_number a, as_number b with
  | Some x, Some y =>
      match number_compare x y with
      | Some Eq => true
      | _ => false
      end
  | None, None =>
      match a, b with
      | VStr s, VStr t => String.eqb s t
      | VNone, VNone => true
      | _, _ => false
      end
  | _, _ => false
  end.

(** The order behind [<], [<=], [>], [>=]: numbers among themselves,
    strings among themselves (by code point), [TypeError] otherwise. *)
Definition py_order (a b : value) : result (option comparison) :=
  match as_number a, as_number b with
  | Some x, Some y => Ok (number_compare x y)
  | None, None =>
      match a, b with
      | VStr s, VStr t => Ok (Some (String.compare s t))
      | _, _ => Raise TypeError
      end
  | _, _ => Raise TypeError
  end.

Module operator.
Definition eq (a b : value) : result bool := Ok (py_eq a b).
Definition ne (a b : value) : result bool := Ok (negb (py_eq a b)).
Definition ge (a b : value) : result bool :=
  c ← py_order a b;
  Ok match c with Some (Gt | Eq) => true | _ => false end.
Definition le (a b : value) : result bool :=
  c ← py_order a b;
  Ok match c with Some (Lt | Eq) => true | _ => false end.
Definition gt (a b : value) : result bool :=
  c ← py_order a b;
  Ok match c with Some Gt => true | _ => false end.
Definition lt (a b : value) : result bool :=
  c ← py_order a b;
  Ok match c with Some Lt => true | _ => false end.
End operator.

Definition OPERATORS : gmap string (value → value → result bool) :=
  list_to_map
    [ ("==", operator.eq); ("!=", operator.ne); (">=", operator.ge);
      ("<=", operator.le); (">", operator.gt); ("<", operator.lt) ]%string.

(** [d[k]] and [k in d] for a dictionary with string keys and a scalar
    [k]: a scalar that is not a string is a key of no such dictionary. *)
Definition getitem {V} (d : gmap string V) (k : value) : result V :=
  match k with
  | VStr s => of_option KeyError (d !! s)
  | _ => Raise KeyError
  end.

Definition contains {V} (d : gmap string V) (k : value) : bool :=
  match k with
  | VStr s => bool_decide (is_Some (d !! s))
  | _ => false
  end.

(** ** Rules *)

(** A rule is a JSON object; each of its keys may be missing. *)
Record rule := {
  name : option string;
  priority : option Z;
  conditions : option (list (list value));
  action : option (gmap string value);
}.

(** ** [evaluate_rule] *)

(** What one pass of the loop over the conditions ends with. *)
Inductive step :=
  | Continue
  | Return (b : bool).

(** The inner [try] block: [Ok true] is its [continue], [Ok false] its
    [return False]. *)
Definition numeric_try (op left value : value) : result bool :=
  left_num ← py_float left;
  right_num ← py_float value;
  f ← getitem OPERATORS op;
  f (VFloat left_num) (VFloat right_num).

(** [if not OPERATORS[op](left, value): return False]. *)
Definition direct_try (op left value : value) : result step :=
  f ← getitem OPERATORS op;
  b ← f left value;
  Ok (if b : bool then Continue else Return false).

(** The outer [try] block. *)
Definition condition_try (facts : gmap string value)
    (field op value : value) : result step :=
  left ← getitem facts field;
  if isinstance_int_float value || isinstance_int_float left then
    match numeric_try op left value with
    | Ok true => Ok Continue
    | Ok false => Ok (Return false)
    | Raise _ => direct_try op left value
    end
  else direct_try op left value.

Definition loop_body (facts : gmap string value) (cond : list value) : step :=
  match cond with
  | [field; op; value] =>
      if negb (contains facts field) then Return false
      else
        match condition_try facts field op value with
        | Ok s => s
        | Raise _ => Return false
        end
  | _ => Return false
  end.

Fixpoint for_conditions (facts : gmap string value)
    (conds : list (list value)) : bool :=
  match conds with
  | [] => true
  | cond :: rest =>
      match loop_body facts cond with
      | Continue => for_conditions facts rest
      | Return b => b
      end
  end.

Definition evaluate_rule (r : rule) (facts : gmap string value) : bool :=
  for_conditions facts (default [] (conditions r)).

(** What [evaluate_rule] answers for a rule whose only condition is
    [cond]: the [satisfies(condition, facts)] of the specification. *)
Definition satisfies (cond : list value) (facts : gmap string value) : bool :=
  for_conditions facts [cond].

(** [OPERATORS[op](a, b)], taken as a truth value the way the two [try]
    blocks do: an exception counts as false. *)
Definition compare_with (op a b : value) : result bool :=
  f ← getitem OPERATORS op; f a b.

Definition holds (r : result bool) : bool :=
  match r with
  | Ok b => b
  | Raise _ => false
  end.

Definition supported_operators : list string :=
  [ "=="; "!="; ">="; "<="; ">"; "<" ]%string.

(** ** [sorted] and [run_rules] *)

Section sorted.
Context {A : Type} (key : A → Z) (reverse : bool).

(** [x], met before [y] in the input, stays in front of [y]. *)
Definition in_front (x y : A) : bool :=
  if reverse then (key y <=? key x)%Z else (key x <=? key y)%Z.

Fixpoint insert_sorted (x : A) (l : list A) : list A :=
  match l with
  | [] => [x]
  | y :: l' => if in_front x y then x :: l else y :: insert_sorted x l'
  end.

(** [sorted(l, key=key, reverse=reverse)]: a new list, stably sorted. *)
Definition sorted (l : list A) : list A := foldr insert_sorted [] l.
End sorted.

Definition priority_key (r : rule) : Z := default 0 (priority r).

Definition run_rules (rules : list rule) (facts : gmap string value)
  : list rule :=
  let sorted_rules := sorted priority_key true rules in
  fold_left
    (fun matched r => if evaluate_rule r facts then matched ++ [r] else matched)
    sorted_rules [].

(** ** Objects and references

    [run_rules] receives references to a list object and to a dictionary,
    builds two new lists and appends to one of them.  The heap model
    keeps the identity of the objects, so that what the call writes, and
    which objects its result holds, can be stated. *)

Module Heap.

Abbreviation loc := positive.

Inductive object :=
  | ORule (r : rule)
  | OFacts (f : gmap string value)
  | OList (items : list loc).

Abbreviation heap := (gmap loc object).

(** A computation on the heap; [None] only when a reference holds an
    object of another kind than the one the code reads from it. *)
Definition state (A : Type) : Type := heap → option (A * heap).

#[global] Instance state_ret : MRet state := fun A a h => Some (a, h).
#[global] Instance state_bind : MBind state := fun A B k m h =>
  match m h with
  | Some (a, h') => k a h'
  | None => None
  end.

Definition get_rule (l : loc) : state rule := fun h =>
  match h !! l with
  | Some (ORule r) => Some (r, h)
  | _ => None
  end.

Definition get_facts (l : loc) : state (gmap string value) := fun h =>
  match h !! l with
  | Some (OFacts f) => Some (f, h)
  | _ => None
  end.

Definition get_list (l : loc) : state (list loc) := fun h =>
  match h !! l with
  | Some (OList items) => Some (items, h)
  | _ => None
  end.

(** A new object, at a reference that was not in use. *)
Definition new (o : object) : state loc := fun h =>
  let l := fresh (dom h) in Some (l, <[l := o]> h).

(** [l.append(x)]: the list object at [l] is updated in place. *)
Definition append (l x : loc) : state unit := fun h =>
  match h !! l with
  | Some (OList items) => Some (tt, <[l := OList (items ++ [x])]> h)
  | _ => None
  end.

(** [r.get("priority", 0)] *)
Definition key_of (r : loc) : state Z :=
  o ← get_rule r; mret (priority_key o).

(** [sorted(rules, key=..., reverse=True)]: the keys are computed first,
    then the references are sorted into a new list object. *)
Definition sorted_rules_of (rules : loc) : state loc :=
  items ← get_list rules;
  keys ← mapM key_of items;
  new (OList (snd <$> sorted fst true (zip keys items))).

Fixpoint for_rules (matched facts : loc) (items : list loc) : state unit :=
  match items with
  | [] => mret tt
  | r :: rest =>
      o ← get_rule r;
      f ← get_facts facts;
      _ ← (if evaluate_rule o f then append matched r else mret tt);
      for_rules matched facts rest
  end.

Definition run_rules (rules facts : loc) : state loc :=
  sorted_rules ← sorted_rules_of rules;
  matched ← new (OList []);
  items ← get_list sorted_rules;
  _ ← for_rules matched facts items;
  mret matched.

(** The heap [h] holds the rule list [rs] at [rules], one rule object per
    element of [items], and the fact dictionary [f] at [facts]. *)
Definition holds_rule (h : heap) (l : loc) (r : rule) : Prop :=
  h !! l = Some (ORule r).

Record inputs (h : heap) (rules facts : loc)
    (items : list loc) (rs : list rule) (f : gmap string value) : Prop := {
  inputs_list : h !! rules = Some (OList items);
  inputs_rules : Forall2 (holds_rule h) items rs;
  inputs_facts : h !! facts = Some (OFacts f);
}.

(** The pairs of a reference and the rule it holds, in the order
    [sorted] gives them, and those among them whose rule matches. *)
Definition sorted_pairs (items : list loc) (rs : list rule)
  : list (loc * rule) :=
  sorted (priority_key ∘ snd) true (zip items rs).

Definition matched_pairs (f : gmap string value)
    (items : list loc) (rs : list rule) : list (loc * rule) :=
  filter (λ p, evaluate_rule p.2 f = true) (sorted_pairs items rs).

End Heap.

(** ** Rules as [json.loads] returns them

    The rules are pasted as JSON text, so a rule object can hold any
    JSON value under [conditions] and any scalar under [priority].  This
    model keeps the operations of [evaluate_rule] and [run_rules] that
    raise on such values: [len] and iteration of a value that is no
    list, string or object, membership and indexing with an unhashable
    key, and [<] between priorities that do not compare.  The facts are
    those of the page: scalars under string keys. *)

Module Json.
#[local] Set Warnings "-register-all".

(** A JSON value; an object is the list of its keys and values in
    order, the keys pairwise distinct. *)
Inductive json :=
  | JNull
  | JBool (b : bool)
  | JInt (z : Z)
  | JFloat (f : float)
  | JStr (s : string)
  | JList (items : list json)
  | JDict (items : list (string * json)).

Definition of_value (v : value) : json :=
  match v with
  | VNone => JNull
  | VBool b => JBool b
  | VInt z => JInt z
  | VFloat f => JFloat f
  | VStr s => JStr s
  end.

(** The scalar a JSON value is, if it is no list and no object. *)
Definition to_value (j : json) : option value :=
  match j with
  | JNull => Some VNone
  | JBool b => Some (VBool b)
  | JInt z => Some (VInt z)
  | JFloat f => Some (VFloat f)
  | JStr s => Some (VStr s)
  | JList _ | JDict _ => None
  end.

(** What [for x in j] and the unpacking of [j] go through: the items of
    a list, the characters of a string, the keys of an object;
    [TypeError] for a value that is not iterable. *)
Definition iter (j : json) : result (list json) :=
  match j with
  | JList items => Ok items
  | JStr s => Ok ((fun c => JStr (string_of_list_ascii c))
                    <$> PyFloat.characters s)
  | JDict items => Ok ((fun kv => JStr kv.1) <$> items)
  | JNull | JBool _ | JInt _ | JFloat _ => Raise TypeError
  end.

(** [len(j)]. *)
Definition len (j : json) : result nat :=
  items ← iter j; Ok (length items).

(** Lists and objects are unhashable. *)
Definition hashable (j : json) : bool :=
  match j with
  | JList _ | JDict _ => false
  | _ => true
  end.

(** [d[k]] and [k in d] for a dictionary with string keys: [TypeError]
    for an unhashable [k]. *)
Definition item {V} (d : gmap string V) (k : json) : result V :=
  match k with
  | JStr s => of_option KeyError (d !! s)
  | JList _ | JDict _ => Raise TypeError
  | _ => Raise KeyError
  end.

Definition member {V} (d : gmap string V) (k : json) : result bool :=
  match k with
  | JStr s => Ok (bool_decide (is_Some (d !! s)))
  | JList _ | JDict _ => Raise TypeError
  | _ => Ok false
  end.

(** [isinstance(j, (int, float))]. *)
Definition is_int_float (j : json) : bool :=
  match j with
  | JBool _ | JInt _ | JFloat _ => true
  | _ => false
  end.

(** [float(j)]: [TypeError] for a list or an object. *)
Definition float_of (j : json) : result float :=
  match to_value j with
  | Some v => py_float v
  | None => Raise TypeError
  end.

(** A comparison of a scalar with a JSON value: as between scalars, and
    [container] when the value is a list or an object. *)
Definition against (f : value → value → result bool)
    (container : result bool) (a : value) (b : json) : result bool :=
  match to_value b with
  | Some v => f a v
  | None => container
  end.

(** The operator table: a scalar equals no list and no object, and is
    not ordered with one. *)
Definition OPERATORS_json : gmap string (value → json → result bool) :=
  list_to_map
    [ ("==", against operator.eq (Ok false));
      ("!=", against operator.ne (Ok true));
      (">=", against operator.ge (Raise TypeError));
      ("<=", against operator.le (Raise TypeError));
      (">", against operator.gt (Raise TypeError));
      ("<", against operator.lt (Raise TypeError)) ]%string.

(** A rule object: any scalar as priority, any JSON value as conditions. *)
Record rule := {
  name : option string;
  priority : option value;
  conditions : option json;
  action : option (gmap string value);
}.

(** The inner [try] block. *)
Definition numeric_attempt (op : json) (left : value) (value : json)
  : result bool :=
  left_num ← py_float left;
  right_num ← float_of value;
  f ← item OPERATORS_json op;
  f (VFloat left_num) (JFloat right_num).

(** [if not OPERATORS[op](left, value): return False]. *)
Definition direct_attempt (op : json) (left : value) (value : json)
  : result step :=
  f ← item OPERATORS_json op;
  b ← f left value;
  Ok (if b : bool then Continue else Return false).

(** The outer [try] block. *)
Definition condition_attempt (facts : gmap string value)
    (field op value : json) : result step :=
  left ← item facts field;
  if is_int_float value || isinstance_int_float left then
    match numeric_attempt op left value with
    | Ok true => Ok Continue
    | Ok false => Ok (Return false)
    | Raise _ => direct_attempt op left value
    end
  else direct_attempt op left value.

(** One pass of the loop: [len(cond)], the unpacking and
    [field not in facts] are outside the [try] blocks. *)
Definition pass (facts : gmap string value) (cond : json) : result step :=
  n ← len cond;
  if negb (n =? 3)%nat then Ok (Return false)
  else
    items ← iter cond;
    match items with
    | [field; op; value] =>
        present ← member facts field;
        if negb present then Ok (Return false)
        else
          Ok match condition_attempt facts field op value with
             | Ok s => s
             | Raise _ => Return false
             end
    | _ => Ok (Return false)
    end.

Fixpoint passes (facts : gmap string value) (conds : list json)
  : result bool :=
  match conds with
  | [] => Ok true
  | cond :: rest =>
      s ← pass facts cond;
      match s with
      | Continue => passes facts rest
      | Return b => Ok b
      end
  end.

Definition evaluate_rule (r : rule) (facts : gmap string value)
  : result bool :=
  conds ← iter (default (JList []) (conditions r));
  passes facts conds.

(** [sorted(l, key=key, reverse=True)] for keys that are any scalars:
    the order is decided with [<], and a comparison that raises ends the
    sort.  Keys that do not compare raise [TypeError] in every sorting
    algorithm, and keys that compare, none of them a NaN, have one
    stable descending order. *)
Section sorted.
Context {A : Type} (key : A → value).

Fixpoint insert_by_lt (x : A) (l : list A) : result (list A) :=
  match l with
  | [] => Ok [x]
  | y :: l' =>
      b ← operator.lt (key x) (key y);
      if b : bool then l'' ← insert_by_lt x l'; Ok (y :: l'')
      else Ok (x :: l)
  end.

Definition sorted_by_lt (l : list A) : result (list A) :=
  foldr (fun x acc => acc ≫= insert_by_lt x) (Ok []) l.
End sorted.

(** [r.get("priority", 0)] *)
Definition priority_of (r : rule) : value := default (VInt 0) (priority r).

Fixpoint for_rules (facts : gmap string value) (rs matched : list rule)
  : result (list rule) :=
  match rs with
  | [] => Ok matched
  | r :: rest =>
      b ← evaluate_rule r facts;
      for_rules facts rest (if b : bool then matched ++ [r] else matched)
  end.

Definition run_rules (rules : list rule) (facts : gmap string value)
  : result (list rule) :=
  sorted_rules ← sorted_by_lt priority_of rules;
  for_rules facts sorted_rules [].

(** The conditions the page asks for: lists; the field of a list of
    three elements is hashable. *)
Definition well_formed_condition (cond : json) : Prop :=
  match cond with
  | JList [field; _; _] => hashable field = true
  | JList _ => True
  | _ => False
  end.

Definition well_formed_conditions (r : rule) : Prop :=
  match conditions r with
  | None => True
  | Some (JList conds) => Forall well_formed_condition conds
  | Some _ => False
  end.

Definition integer_priority (r : rule) : Prop :=
  match priority r with
  | None | Some (VInt _) => True
  | Some _ => False
  end.

(** The ways a list given as a condition fails to hold, each of which
    counts as not satisfied. *)
Definition fails (facts : gmap string value) (items : list json) : Prop :=
  length items ≠ 3%nat
  ∨ ∃ field op value, items = [field; op; value] ∧
      ( member facts field = Ok false
        ∨ op ∉ JStr <$> supported_operators
        ∨ ∃ e, condition_attempt facts field op value = Raise e ).

End Json.

(** A rule of scalars as a rule object. *)
Definition condition_to_json (cond : list value) : Json.json :=
  Json.JList (Json.of_value <$> cond).

Definition rule_to_json (r : rule) : Json.rule :=
  {| Json.name := name r;
     Json.priority := VInt <$> priority r;
     Json.conditions :=
       (fun conds => Json.JList (condition_to_json <$> conds))
         <$> conditions r;
     Json.action := action r |}.

(** ** The worked examples of the specification *)

Module Examples.
#[local] Set Warnings "-inexact-float".

(** A rule without conditions, known by its name and priority. *)
Definition named (n : string) (p : Z) : rule :=
  {| name := Some n; priority := Some p; conditions := None;
     action := None |}.

Definition A : rule := named "A" 1.
Definition B : rule := named "B" 5.
Definition C : rule := named "C" 5.

Definition applicant : gmap string value :=
  {[ "cgpa"%string := VFloat 3.8; "family_income"%string := VInt 2000 ]}.

Definition R1 : rule :=
  {| name := Some "R1"%string;
     priority := Some 10;
     conditions :=
       Some [ [VStr "cgpa"; VStr ">="; VFloat 3.5];
              [VStr "family_income"; VStr "<="; VInt 3000] ];
     action :=
       Some {[ "decision"%string := VStr "AWARD";
               "reason"%string := VStr "high merit, low income" ]} |}.

(** A heap with the rule list [[A; R1]] at reference 1 and the
    applicant's facts at reference 4. *)
Definition store : Heap.heap :=
  {[ 1%positive := Heap.OList [2%positive; 3%positive];
     2%positive := Heap.ORule A;
     3%positive := Heap.ORule R1;
     4%positive := Heap.OFacts applicant ]}.
End Examples.

(** ** The page: the facts it builds and what it shows *)

(** The two values a condition compares: the floats when either side
    is an [int] or a [float] and both convert, the original values
    otherwise.  They do not depend on the operator. *)
Definition operands (left value : value) :=
  if isinstance_int_float value || isinstance_int_float left then
    match py_float left, py_float value with
    | Ok l, Ok r => (VFloat l, VFloat r)
    | _, _ => (left, value)
    end
  else (left, value).

(** Pairs of operators that cannot hold together of the same operands. *)
Definition contradictory_operators : list (string * string) :=
  [ ("<", ">="); (">", "<="); ("==", "!=");
    ("<", ">"); ("<", "=="); (">", "==") ]%string.

Definition app_fields : list string :=
  [ "cgpa"; "family_income"; "co_curricular_score";
    "community_service_hours"; "current_semester";
    "disciplinary_actions" ]%string.

(** The [facts] dictionary of the page, from the values of the six
    number inputs: two floats and four integers. *)
Definition app_facts (cgpa family_income : float)
    (co_curricular_score community_service_hours
     current_semester disciplinary_actions : Z) : gmap string value :=
  {[ "cgpa"%string := VFloat cgpa;
     "family_income"%string := VFloat family_income;
     "co_curricular_score"%string := VInt co_curricular_score;
     "community_service_hours"%string := VInt community_service_hours;
     "current_semester"%string := VInt current_semester;
     "disciplinary_actions"%string := VInt disciplinary_actions ]}.

(** What the page displays: the calls of [st.warning], [st.info],
    [st.success] and [st.write] with their arguments, a missing key
    being shown as [None]. *)
Inductive element :=
  | warning (body : string)
  | info (body : string)
  | success (body : string)
  | write (args : list value).

(** [f"{n}"] for a length. *)
Definition str_of_nat (n : nat) : string :=
  NilZero.string_of_uint (Nat.to_uint n).

(** The five [st.write] calls for one matched rule. *)
Definition show_rule (r : rule) : list element :=
  [ write [VStr "**Rule:**"; from_option VStr VNone (name r)];
    write [VStr "Priority:"; from_option VInt VNone (priority r)];
    write [VStr "Decision:";
           default VNone (default ∅ (action r) !! "decision"%string)];
    write [VStr "Reason:";
           default VNone (default ∅ (action r) !! "reason"%string)];
    write [VStr "---"] ].

(** The body of [if st.button("Evaluate rules")]. *)
Definition on_evaluate (rules : list rule) (facts : gmap string value)
  : list element :=
  match rules with
  | [] => [warning "No rules available. Please paste valid rules JSON."]
  | _ =>
      let matched := run_rules rules facts in
      match matched with
      | [] => [info "No matching rules. Decision: NO_DECISION"]
      | _ =>
          success (str_of_nat (length matched)
                   +:+ " rule(s) matched. Showing highest-priority match first.")
          :: mjoin (show_rule <$> matched)
      end
  end.

(** * Properties *)

(** ** The model on some Python expressions *)

Example float_of_str_75 : py_float (VStr "75") = Ok 75%float.
Proof. vm_compute. reflexivity. Qed.

Example float_of_str_spaces_underscores :
  py_float (VStr " 1_000.5e1 ") = Ok 10005%float.
Proof. vm_compute. reflexivity. Qed.

Example float_of_str_inf : py_float (VStr "-Infinity") = Ok neg_infinity.
Proof. vm_compute. reflexivity. Qed.

Example float_of_str_overflow : py_float (VStr "1e400") = Ok infinity.
Proof. vm_compute. reflexivity. Qed.

Example float_of_str_abc : py_float (VStr "abc") = Raise ValueError.
Proof. vm_compute. reflexivity. Qed.

Example float_of_str_bad_underscore :
  py_float (VStr "1__0") = Raise ValueError.
Proof. vm_compute. reflexivity. Qed.

Example float_of_int_rounds :
  py_float (VInt (2 ^ 53 + 1)) = Ok 9007199254740992%float.
Proof. vm_compute. reflexivity. Qed.

Example float_of_int_overflow :
  py_float (VInt (10 ^ 400)) = Raise OverflowError.
Proof. vm_compute. reflexivity. Qed.

Example float_of_none : py_float VNone = Raise TypeError.
Proof. reflexivity. Qed.

Example eq_int_float : operator.eq (VInt 1) (VFloat 1) = Ok true.
Proof. vm_compute. reflexivity. Qed.

Example eq_bool_int : operator.eq (VBool true) (VInt 1) = Ok true.
Proof. vm_compute. reflexivity. Qed.

Example eq_str_int : operator.eq (VStr "1") (VInt 1) = Ok false.
Proof. vm_compute. reflexivity. Qed.

Example ne_nan : operator.ne (VFloat nan) (VFloat nan) = Ok true.
Proof. vm_compute. reflexivity. Qed.

Example lt_int_float_exact :
  operator.lt (VFloat 9007199254740992) (VInt (2 ^ 53 + 1)) = Ok true.
Proof. vm_compute. reflexivity. Qed.

Example lt_str_str : operator.lt (VStr "abc") (VStr "abd") = Ok true.
Proof. vm_compute. reflexivity. Qed.

Example ge_str_int : operator.ge (VStr "abc") (VInt 50) = Raise TypeError.
Proof. vm_compute. reflexivity. Qed.

Example lt_none_none : operator.lt VNone VNone = Raise TypeError.
Proof. vm_compute. reflexivity. Qed.

Example sorted_reverse_stable :
  sorted snd true [("a", 1); ("b", 5); ("c", 5); ("d", 7)]%string
  = [("d", 7); ("b", 5); ("c", 5); ("a", 1)]%string.
Proof. vm_compute. reflexivity. Qed.

Example heap_run :
  fst <$> Heap.run_rules 1%positive 4%positive Examples.store
  = Some 6%positive
  ∧ (Heap.run_rules 1%positive 4%positive Examples.store
       ≫= λ mh, mh.2 !! mh.1)
    = Some (Heap.OList [3%positive; 2%positive]).
Proof. split; vm_compute; reflexivity. Qed.

Example float_of_str_other_digits :
  py_float (VStr "١٢") = Ok 12%float
  ∧ py_float (VStr "１２.５") = Ok 12.5%float
  ∧ py_float (VStr "1_١") = Ok 11%float.
Proof. split_and!; vm_compute; reflexivity. Qed.

Example float_of_str_other_spaces :
  py_float (VStr " 12") = Ok 12%float
  ∧ py_float (VStr "12　") = Ok 12%float
  ∧ py_float (VStr " 1") = Ok 1%float
  ∧ py_float (VStr "1 2") = Raise ValueError.
Proof. split_and!; vm_compute; reflexivity. Qed.

Example float_of_str_other_characters :
  py_float (VStr "−1") = Raise ValueError
  ∧ py_float (VStr "1é") = Raise ValueError.
Proof. split_and!; vm_compute; reflexivity. Qed.

Example len_of_json :
  Json.len (Json.JList [Json.JInt 1; Json.JInt 2]) = Ok 2%nat
  ∧ Json.len (Json.JStr "aé１") = Ok 3%nat
  ∧ Json.len (Json.JDict [("a"%string, Json.JNull)]) = Ok 1%nat
  ∧ Json.len (Json.JInt 5) = Raise TypeError
  ∧ Json.len Json.JNull = Raise TypeError.
Proof. split_and!; vm_compute; reflexivity. Qed.

Example iter_of_json :
  Json.iter (Json.JStr "a>b")
  = Ok [Json.JStr "a"; Json.JStr ">"; Json.JStr "b"]
  ∧ Json.iter (Json.JDict [("x"%string, Json.JInt 1);
                           ("y"%string, Json.JInt 2)])
    = Ok [Json.JStr "x"; Json.JStr "y"]
  ∧ Json.iter (Json.JFloat 1) = Raise TypeError.
Proof. split_and!; vm_compute; reflexivity. Qed.

Example unhashable_keys :
  Json.member Examples.applicant (Json.JList []) = Raise TypeError
  ∧ Json.member Examples.applicant (Json.JInt 5) = Ok false
  ∧ Json.member Examples.applicant (Json.JStr "cgpa") = Ok true
  ∧ (Json.item Json.OPERATORS_json (Json.JDict []) ≫= λ _, Ok tt)
    = Raise TypeError
  ∧ (Json.item Json.OPERATORS_json (Json.JInt 5) ≫= λ _, Ok tt)
    = Raise KeyError.
Proof. split_and!; vm_compute; reflexivity. Qed.

Example scalar_against_list :
  Json.against operator.eq (Ok false) (VInt 1) (Json.JList [Json.JInt 1])
  = Ok false
  ∧ Json.against operator.ne (Ok true) (VInt 1) (Json.JDict []) = Ok true
  ∧ Json.against operator.lt (Raise TypeError) (VInt 1)
      (Json.JList [Json.JInt 1]) = Raise TypeError
  ∧ Json.float_of (Json.JList []) = Raise TypeError.
Proof. split_and!; vm_compute; reflexivity. Qed.

Example sorted_by_lt_scalars :
  Json.sorted_by_lt id [VFloat 1.5; VBool true; VInt 2; VInt 0]
  = Ok [VInt 2; VFloat 1.5; VBool true; VInt 0]
  ∧ Json.sorted_by_lt id [VStr "a"; VStr "b"] = Ok [VStr "b"; VStr "a"]
  ∧ Json.sorted_by_lt id [VNone] = Ok [VNone]
  ∧ Json.sorted_by_lt id [VNone; VInt 0] = Raise TypeError
  ∧ Json.sorted_by_lt id [VStr "high"; VInt 1] = Raise TypeError.
Proof. split_and!; vm_compute; reflexivity. Qed.

(** ** The [sorted] builtin *)

Section sorted_facts.
Context {A : Type} (key : A → Z) (reverse : bool).
Implicit Types (x y : A) (l : list A).

Lemma in_front_same_key x y : key x = key y → in_front key reverse x y = true.
Proof. unfold in_front. intros ->. destruct reverse; lia. Qed.

Lemma in_front_total x y :
  in_front key reverse x y = false → in_front key reverse y x = true.
Proof. unfold in_front. destruct reverse; lia. Qed.

Lemma in_front_trans x y z :
  in_front key reverse x y = true → in_front key reverse y z = true →
  in_front key reverse x z = true.
Proof. unfold in_front. destruct reverse; lia. Qed.

Lemma insert_sorted_perm x l : insert_sorted key reverse x l ≡ₚ x :: l.
Proof.
  induction l as [|y l IH]; simpl; [done|].
  destruct (in_front key reverse x y); [done|].
  rewrite IH. apply Permutation_swap.
Qed.

Lemma sorted_perm l : sorted key reverse l ≡ₚ l.
Proof.
  induction l as [|x l IH]; simpl; [done|].
  rewrite insert_sorted_perm. by rewrite IH.
Qed.

Lemma insert_sorted_stable (p : Z) x l :
  filter (λ y, key y = p) (insert_sorted key reverse x l)
  = filter (λ y, key y = p) (x :: l).
Proof.
  induction l as [|y l IH]; simpl; [done|].
  destruct (in_front key reverse x y) eqn:Hf; [done|].
  assert (key x ≠ key y) as Hne.
  { intros He. by rewrite (in_front_same_key _ _ He) in Hf. }
  rewrite (filter_cons _ y (insert_sorted _ _ _ _)), IH.
  rewrite !(filter_cons _ x), !(filter_cons _ y).
  repeat case_decide; (done || congruence).
Qed.

Lemma sorted_stable (p : Z) l :
  filter (λ y, key y = p) (sorted key reverse l) = filter (λ y, key y = p) l.
Proof.
  induction l as [|x l IH]; simpl; [done|].
  rewrite insert_sorted_stable, !filter_cons. by rewrite IH.
Qed.

Lemma insert_sorted_ordered x l :
  StronglySorted (λ a b, in_front key reverse a b = true) l →
  StronglySorted (λ a b, in_front key reverse a b = true)
    (insert_sorted key reverse x l).
Proof.
  induction 1 as [|y l Hs IH Hall]; simpl.
  { repeat constructor. }
  destruct (in_front key reverse x y) eqn:Hf.
  - constructor; [by constructor|].
    constructor; [done|].
    eapply Forall_impl; [exact Hall|].
    intros z Hz. by eapply in_front_trans.
  - constructor; [done|].
    rewrite insert_sorted_perm. constructor; [|done].
    by apply in_front_total.
Qed.

Lemma sorted_ordered l :
  StronglySorted (λ a b, in_front key reverse a b = true)
    (sorted key reverse l).
Proof.
  induction l as [|x l IH]; simpl; [constructor|].
  by apply insert_sorted_ordered.
Qed.

(** Sorting commutes with a renaming of the elements. *)
Lemma insert_sorted_fmap {B} (g : B → A) (x : B) (k : list B) :
  insert_sorted key reverse (g x) (g <$> k)
  = g <$> insert_sorted (key ∘ g) reverse x k.
Proof.
  induction k as [|y k IHk]; [done|].
  rewrite fmap_cons. cbn [insert_sorted]. rewrite IHk.
  replace (in_front (key ∘ g) reverse x y)
    with (in_front key reverse (g x) (g y)) by done.
  by destruct (in_front key reverse (g x) (g y)).
Qed.

Lemma sorted_fmap {B} (g : B → A) (l : list B) :
  sorted key reverse (g <$> l) = g <$> sorted (key ∘ g) reverse l.
Proof.
  unfold sorted. induction l as [|x l IH]; [done|].
  rewrite fmap_cons. cbn [foldr]. rewrite IH. apply insert_sorted_fmap.
Qed.
End sorted_facts.

Lemma sorted_descending {A} (key : A → Z) (l : list A) :
  StronglySorted (λ a b, key b ≤ key a) (sorted key true l).
Proof.
  pose proof (sorted_ordered key true l) as Hs.
  induction Hs as [|x k _ IH Hall]; constructor; [done|].
  eapply Forall_impl; [exact Hall|].
  unfold in_front. intros y. lia.
Qed.

(** ** The operator table *)

Lemma OPERATORS_lookup (s : string) :
  OPERATORS !! s =
    if decide ("==" = s)%string then Some operator.eq
    else if decide ("!=" = s)%string then Some operator.ne
    else if decide (">=" = s)%string then Some operator.ge
    else if decide ("<=" = s)%string then Some operator.le
    else if decide (">" = s)%string then Some operator.gt
    else if decide ("<" = s)%string then Some operator.lt
    else None.
Proof.
  unfold OPERATORS. cbn [list_to_map foldr uncurry fst snd].
  rewrite !lookup_insert. repeat case_decide; try done.
Qed.

Lemma OPERATORS_supported (s : string) :
  is_Some (OPERATORS !! s) ↔ s ∈ supported_operators.
Proof.
  rewrite OPERATORS_lookup. unfold supported_operators.
  rewrite !elem_of_cons, elem_of_nil.
  repeat case_decide; subst; split; intros Hs; eauto 10.
  - by destruct Hs as [f [=]].
  - by destruct Hs as [->|[->|[->|[->|[->|[->|[]]]]]]].
Qed.

Lemma getitem_OPERATORS_unsupported (op : value) :
  op ∉ VStr <$> supported_operators → getitem OPERATORS op = Raise KeyError.
Proof.
  intros Hop. destruct op as [| | | |s]; try done. simpl.
  destruct (OPERATORS !! s) as [f|] eqn:Hs; [|done].
  exfalso. apply Hop, list_elem_of_fmap. exists s. split; [done|].
  apply OPERATORS_supported. eauto.
Qed.

(** No operator of the table raises on two numbers. *)
Lemma OPERATORS_numbers (op a b : value) f :
  getitem OPERATORS op = Ok f →
  is_Some (as_number a) → is_Some (as_number b) →
  ∃ v : bool, f a b = Ok v.
Proof.
  intros Hf [x Hx] [y Hy]. destruct op as [| | | |s]; try done. simpl in Hf.
  rewrite OPERATORS_lookup in Hf.
  repeat case_decide; simplify_eq/=;
    unfold operator.eq, operator.ne, operator.ge, operator.le,
      operator.gt, operator.lt, py_order;
    rewrite ?Hx, ?Hy; simpl; eauto.
Qed.

(** ** One condition *)

Lemma loop_body_cases facts cond :
  loop_body facts cond = Continue ∨ loop_body facts cond = Return false.
Proof.
  unfold loop_body.
  destruct cond as [|field [|op [|value [|? ?]]]]; auto.
  destruct (contains facts field); simpl; auto.
  unfold condition_try, direct_try.
  destruct (getitem facts field) as [left|]; simpl; auto.
  assert (∀ r : result step, r = direct_try op left value →
    match r with Ok s => s | Raise _ => Return false end = Continue ∨
    match r with Ok s => s | Raise _ => Return false end = Return false)
    as Hdirect.
  { intros r ->. unfold direct_try.
    destruct (getitem OPERATORS op) as [f|]; simpl; auto.
    destruct (f left value) as [[]|]; simpl; auto. }
  destruct (_ || _); [|by apply Hdirect].
  destruct (numeric_try op left value) as [[]|]; auto.
Qed.

Lemma satisfies_loop_body cond facts :
  satisfies cond facts = true ↔ loop_body facts cond = Continue.
Proof.
  unfold satisfies. simpl.
  destruct (loop_body_cases facts cond) as [-> | ->]; done.
Qed.

Lemma for_conditions_cons facts cond conds :
  for_conditions facts (cond :: conds)
  = satisfies cond facts && for_conditions facts conds.
Proof.
  unfold satisfies. simpl.
  destruct (loop_body_cases facts cond) as [-> | ->]; done.
Qed.

Lemma for_conditions_Forall facts conds :
  for_conditions facts conds = true
  ↔ Forall (λ cond, satisfies cond facts = true) conds.
Proof.
  induction conds as [|cond conds IH].
  - split; [constructor|done].
  - rewrite for_conditions_cons, andb_true_iff, IH, Forall_cons. done.
Qed.

Lemma for_conditions_unsatisfied facts conds cond :
  cond ∈ conds → satisfies cond facts = false →
  for_conditions facts conds = false.
Proof.
  intros Hin Hc. apply not_true_is_false. rewrite for_conditions_Forall.
  rewrite Forall_forall. intros H. specialize (H _ Hin). congruence.
Qed.

Lemma satisfies_arity cond facts :
  length cond ≠ 3%nat → satisfies cond facts = false.
Proof.
  intros Hlen. unfold satisfies. simpl.
  by destruct cond as [|field [|op [|value [|? ?]]]].
Qed.

Lemma satisfies_absent facts field op value :
  contains facts field = false → satisfies [field; op; value] facts = false.
Proof. intros Hf. unfold satisfies. simpl. by rewrite Hf. Qed.

Lemma satisfies_raises facts field op value e :
  condition_try facts field op value = Raise e →
  satisfies [field; op; value] facts = false.
Proof.
  intros He. unfold satisfies. simpl. rewrite He.
  by destruct (contains facts field).
Qed.

Lemma direct_try_unsupported op left value :
  op ∉ VStr <$> supported_operators →
  direct_try op left value = Raise KeyError.
Proof.
  intros Hop. unfold direct_try.
  by rewrite (getitem_OPERATORS_unsupported _ Hop).
Qed.

Lemma numeric_try_unsupported op left value :
  op ∉ VStr <$> supported_operators →
  ∃ e, numeric_try op left value = Raise e.
Proof.
  intros Hop. unfold numeric_try.
  destruct (py_float left) as [l|e1]; simpl; [|eauto].
  destruct (py_float value) as [r|e2]; simpl; [|eauto].
  rewrite (getitem_OPERATORS_unsupported _ Hop). simpl. eauto.
Qed.

Lemma satisfies_unsupported facts field op value :
  op ∉ VStr <$> supported_operators →
  satisfies [field; op; value] facts = false.
Proof.
  intros Hop. unfold satisfies. simpl.
  destruct (contains facts field); simpl; [|done].
  unfold condition_try.
  destruct (getitem facts field) as [left|]; simpl; [|done].
  destruct (numeric_try_unsupported op left value Hop) as [e ->].
  rewrite (direct_try_unsupported _ left value Hop).
  by destruct (_ || _).
Qed.

(** The verdict of the direct comparison. *)
Lemma direct_try_holds op left value :
  match
    match direct_try op left value with
    | Ok s => s
    | Raise _ => Return false
    end
  with
  | Continue => true
  | Return b => b
  end = holds (compare_with op left value).
Proof.
  unfold direct_try, compare_with.
  destruct (getitem OPERATORS op) as [f|]; simpl; [|done].
  by destruct (f left value) as [[]|].
Qed.

Lemma satisfies_direct facts (field : string) op value left :
  facts !! field = Some left →
  isinstance_int_float value || isinstance_int_float left = false →
  satisfies [VStr field; op; value] facts = holds (compare_with op left value).
Proof.
  intros Hf Hn. unfold satisfies. simpl.
  rewrite Hf, bool_decide_eq_true_2 by eauto. simpl.
  unfold condition_try. simpl. rewrite Hf. simpl. rewrite Hn.
  apply direct_try_holds.
Qed.

(** The verdict when either side is an [int] or a [float]: the floats
    are compared when both conversions succeed, the original values
    otherwise. *)
Lemma satisfies_numeric facts (field : string) op value left :
  facts !! field = Some left →
  isinstance_int_float value || isinstance_int_float left = true →
  satisfies [VStr field; op; value] facts =
    match py_float left, py_float value with
    | Ok l, Ok r => holds (compare_with op (VFloat l) (VFloat r))
    | _, _ => holds (compare_with op left value)
    end.
Proof.
  intros Hf Hn. unfold satisfies. simpl.
  rewrite Hf, bool_decide_eq_true_2 by eauto. simpl.
  unfold condition_try. simpl. rewrite Hf. simpl. rewrite Hn.
  unfold numeric_try.
  destruct (py_float left) as [l|]; simpl; [|apply direct_try_holds].
  destruct (py_float value) as [r|]; simpl; [|apply direct_try_holds].
  unfold compare_with at 1.
  destruct (getitem OPERATORS op) as [f|] eqn:Hop; simpl.
  - destruct (OPERATORS_numbers op (VFloat l) (VFloat r) f Hop)
      as [v ->]; [by eexists..|].
    by destruct v.
  - rewrite direct_try_holds. unfold compare_with. by rewrite Hop.
Qed.

(** ** Claims about one condition *)

(** On rules of scalars: a condition that does not have exactly three
    elements, whose field is absent from the facts, whose operator is
    not one of the six supported ones, or whose comparison raises, is
    not satisfied, and the rule does not match. *)
Lemma evaluate_rule_fails_closed
    (r : rule) (facts : gmap string value) (cond : list value) :
  cond ∈ default [] (conditions r) →
  ( length cond ≠ 3%nat
    ∨ ∃ field op value, cond = [field; op; value] ∧
        ( contains facts field = false
          ∨ op ∉ VStr <$> supported_operators
          ∨ ∃ e, condition_try facts field op value = Raise e ) ) →
  loop_body facts cond = Return false
  ∧ satisfies cond facts = false
  ∧ evaluate_rule r facts = false.
Proof.
  intros Hin Hbad.
  assert (satisfies cond facts = false) as Hs.
  { destruct Hbad as [Hlen | (field & op & value & -> & [Hf | [Hop | [e He]]])].
    - by apply satisfies_arity.
    - by apply satisfies_absent.
    - by apply satisfies_unsupported.
    - by eapply satisfies_raises. }
  split_and!; [|done|by eapply for_conditions_unsatisfied].
  destruct (loop_body_cases facts cond) as [Hc | Hc]; [|done].
  apply satisfies_loop_body in Hc. congruence.
Qed.

(** C2. Numeric coercion.  For a condition whose field is in the facts,
    when the literal or the fact is an [int] or a [float], both are
    converted with [float] and the floats are compared with the operator;
    when a conversion fails, the original values are compared with the
    same operator.  A string that reads as a number satisfies the
    condition through the conversion; one that does not is left to the
    direct comparison, which raises. *)
Theorem numeric_coercion :
  (∀ (facts : gmap string value) (field : string) (op left value : value),
     facts !! field = Some left →
     isinstance_int_float value = true ∨ isinstance_int_float left = true →
     (∀ l r, py_float left = Ok l → py_float value = Ok r →
        satisfies [VStr field; op; value] facts
        = holds (compare_with op (VFloat l) (VFloat r)))
     ∧ ((∃ e, py_float left = Raise e) ∨ (∃ e, py_float value = Raise e) →
        satisfies [VStr field; op; value] facts
        = holds (compare_with op left value)))
  ∧ satisfies [VStr "score"; VStr ">="; VInt 50]
      {[ "score"%string := VStr "75" ]} = true
  ∧ satisfies [VStr "score"; VStr ">="; VInt 50]
      {[ "score"%string := VStr "abc" ]} = false.
Proof.
  split; [|split; vm_compute; reflexivity].
  intros facts field op left value Hf Hn.
  assert (isinstance_int_float value || isinstance_int_float left = true)
    as Hn' by (apply orb_true_iff; done).
  pose proof (satisfies_numeric facts field op value left Hf Hn') as Hs.
  split.
  - intros l r Hl Hr. by rewrite Hs, Hl, Hr.
  - intros [[e He] | [e He]]; rewrite Hs, He; [done|].
    by destruct (py_float left).
Qed.

Lemma numeric_coercion_witness :
  satisfies [VStr "score"; VStr ">="; VInt 50]
    {[ "score"%string := VStr "75" ]}
  = holds (compare_with (VStr ">=") (VFloat 75) (VFloat 50))
  ∧ satisfies [VStr "score"; VStr ">="; VInt 50]
      {[ "score"%string := VStr "abc" ]}
    = holds (compare_with (VStr ">=") (VStr "abc") (VInt 50)).
Proof.
  split.
  - refine (proj1 (proj1 numeric_coercion {[ "score"%string := VStr "75" ]}
              "score"%string (VStr ">=") (VStr "75") (VInt 50) _ _)
              75%float 50%float _ _).
    + vm_compute. reflexivity.
    + left. reflexivity.
    + vm_compute. reflexivity.
    + vm_compute. reflexivity.
  - refine (proj2 (proj1 numeric_coercion {[ "score"%string := VStr "abc" ]}
              "score"%string (VStr ">=") (VStr "abc") (VInt 50) _ _) _).
    + vm_compute. reflexivity.
    + left. reflexivity.
    + left. exists ValueError. vm_compute. reflexivity.
Defined.

(** C9. Booleans count as numbers for the coercion: [isinstance] accepts
    them, [float(True)] is [1.0] and [float(False)] is [0.0], and a
    condition with a boolean on either side is decided on the floats
    whenever the other side converts as well. *)
Theorem booleans_are_numeric :
  (∀ b, isinstance_int_float (VBool b) = true
        ∧ py_float (VBool b) = Ok (if b then 1%float else 0%float))
  ∧ (∀ (facts : gmap string value) (field : string) (op other : value)
       (b : bool) (x : float),
       py_float other = Ok x →
       (facts !! field = Some other →
        satisfies [VStr field; op; VBool b] facts
        = holds (compare_with op (VFloat x)
                   (VFloat (if b then 1%float else 0%float))))
       ∧ (facts !! field = Some (VBool b) →
          satisfies [VStr field; op; other] facts
          = holds (compare_with op
                     (VFloat (if b then 1%float else 0%float)) (VFloat x))))
  ∧ satisfies [VStr "flag"; VStr "=="; VBool true]
      {[ "flag"%string := VFloat 1 ]} = true
  ∧ satisfies [VStr "flag"; VStr ">"; VBool false]
      {[ "flag"%string := VInt 1 ]} = true.
Proof.
  split_and!; [| |vm_compute; reflexivity..].
  - intros []; split; reflexivity.
  - intros facts field op other b x Hx. split; intros Hf.
    + rewrite (satisfies_numeric facts field op (VBool b) other Hf) by done.
      rewrite Hx. by destruct b.
    + rewrite (satisfies_numeric facts field op other (VBool b) Hf).
      * rewrite Hx. by destruct b.
      * apply orb_true_r.
Qed.

Lemma booleans_are_numeric_witness :
  satisfies [VStr "flag"; VStr "=="; VBool true]
    {[ "flag"%string := VFloat 1 ]}
  = holds (compare_with (VStr "==") (VFloat 1) (VFloat 1))
  ∧ satisfies [VStr "flag"; VStr ">"; VInt 0]
      {[ "flag"%string := VBool true ]}
    = holds (compare_with (VStr ">") (VFloat 1) (VFloat 0)).
Proof.
  split.
  - apply (proj1 (proj1 (proj2 booleans_are_numeric)
             {[ "flag"%string := VFloat 1 ]} "flag"%string (VStr "==")
             (VFloat 1) true 1%float eq_refl)).
    vm_compute. reflexivity.
  - apply (proj2 (proj1 (proj2 booleans_are_numeric)
             {[ "flag"%string := VBool true ]} "flag"%string (VStr ">")
             (VInt 0) true 0%float ltac:(vm_compute; reflexivity))).
    vm_compute. reflexivity.
Defined.

(** ** [run_rules] on values *)

Lemma fold_matched (P : rule → bool) (l acc : list rule) :
  fold_left (fun matched r => if P r then matched ++ [r] else matched) l acc
  = acc ++ filter (λ r, P r = true) l.
Proof.
  revert acc. induction l as [|r l IH]; intros acc; simpl.
  { by rewrite app_nil_r. }
  rewrite IH, filter_cons. destruct (P r) eqn:HP.
  - rewrite decide_True by done. by rewrite <-app_assoc.
  - by rewrite decide_False by congruence.
Qed.

Lemma run_rules_filter rules facts :
  run_rules rules facts
  = filter (λ r, evaluate_rule r facts = true) (sorted priority_key true rules).
Proof. unfold run_rules. by rewrite fold_matched. Qed.

Lemma run_rules_perm rules facts :
  run_rules rules facts ≡ₚ filter (λ r, evaluate_rule r facts = true) rules.
Proof. rewrite run_rules_filter. by rewrite sorted_perm. Qed.

Lemma evaluate_rule_Forall r facts :
  evaluate_rule r facts = true
  ↔ Forall (λ cond, satisfies cond facts = true) (default [] (conditions r)).
Proof. apply for_conditions_Forall. Qed.

(** C3, as amended.  [run_rules] sorts the rules by priority, highest
    first, a missing priority counting as 0 and rules of equal priority
    keeping their input order, and returns the matching rules of the
    sorted list in that order.  For A (priority 1), B and C (priority 5)
    listed as B, C, A and all matching, the result is B, C, A. *)
Theorem run_rules_priority_order :
  (∀ (rules : list rule) (facts : gmap string value),
     let sorted_rules := sorted priority_key true rules in
     sorted_rules ≡ₚ rules
     ∧ StronglySorted (λ a b, priority_key b ≤ priority_key a) sorted_rules
     ∧ (∀ p : Z, filter (λ r, priority_key r = p) sorted_rules
                 = filter (λ r, priority_key r = p) rules)
     ∧ run_rules rules facts
       = filter (λ r, evaluate_rule r facts = true) sorted_rules)
  ∧ (∀ r : rule, priority r = None → priority_key r = 0)
  ∧ (∀ (a b c : rule) (facts : gmap string value),
       priority a = Some 1 → priority b = Some 5 → priority c = Some 5 →
       evaluate_rule a facts = true → evaluate_rule b facts = true →
       evaluate_rule c facts = true →
       run_rules [b; c; a] facts = [b; c; a]).
Proof.
  split_and!.
  - intros rules facts sorted_rules. subst sorted_rules. split_and!.
    + apply sorted_perm.
    + apply sorted_descending.
    + intros p. apply sorted_stable.
    + apply run_rules_filter.
  - intros r Hr. unfold priority_key. by rewrite Hr.
  - intros a b c facts Ha Hb Hc Ma Mb Mc.
    assert (in_front priority_key true c a = true) as Hca.
    { unfold in_front, priority_key. by rewrite Ha, Hc. }
    assert (in_front priority_key true b c = true) as Hbc.
    { unfold in_front, priority_key. by rewrite Hb, Hc. }
    rewrite run_rules_filter. unfold sorted.
    cbn [foldr insert_sorted]. rewrite Hca. cbn [insert_sorted]. rewrite Hbc.
    rewrite !filter_cons, filter_nil.
    by rewrite !decide_True by done.
Qed.

Lemma run_rules_priority_order_witness :
  run_rules [Examples.B; Examples.C; Examples.A] ∅
  = [Examples.B; Examples.C; Examples.A]
  ∧ priority_key {| name := None; priority := None; conditions := None;
                    action := None |} = 0.
Proof.
  split.
  - apply (proj2 (proj2 run_rules_priority_order)
             Examples.A Examples.B Examples.C ∅); reflexivity.
  - apply (proj1 (proj2 run_rules_priority_order)). reflexivity.
Defined.

(** C3 as stated does not hold: with C listed before A but also before
    B, all three matching, the result is C, B, A and not B, C, A. *)
Lemma run_rules_priority_order_counterexample :
  priority Examples.A = Some 1
  ∧ priority Examples.B = Some 5
  ∧ priority Examples.C = Some 5
  ∧ Forall (λ r, evaluate_rule r ∅ = true)
      [Examples.C; Examples.B; Examples.A]
  ∧ run_rules [Examples.C; Examples.B; Examples.A] ∅
    = [Examples.C; Examples.B; Examples.A]
  ∧ run_rules [Examples.C; Examples.B; Examples.A] ∅
    ≠ [Examples.B; Examples.C; Examples.A].
Proof.
  split_and!; try reflexivity.
  - repeat constructor.
  - intros H. vm_compute in H. discriminate H.
Qed.


(** C5. A rule whose list of conditions is empty, or that has no
    [conditions] key, matches any facts, and is returned by [run_rules]
    whenever it is among the rules. *)
Theorem empty_conditions_match (r : rule) (facts : gmap string value) :
  conditions r = Some [] ∨ conditions r = None →
  evaluate_rule r facts = true
  ∧ ∀ rules, r ∈ rules → r ∈ run_rules rules facts.
Proof.
  intros Hc.
  assert (evaluate_rule r facts = true) as He.
  { unfold evaluate_rule. by destruct Hc as [-> | ->]. }
  split; [done|]. intros rules Hin.
  rewrite run_rules_perm, list_elem_of_filter. done.
Qed.

Lemma empty_conditions_match_witness :
  evaluate_rule Examples.A Examples.applicant = true
  ∧ ∀ rules, Examples.A ∈ rules →
             Examples.A ∈ run_rules rules Examples.applicant.
Proof.
  apply (empty_conditions_match Examples.A Examples.applicant).
  right. reflexivity.
Defined.

(** C6. [run_rules] returns the empty list when there are no rules and
    when no rule matches, as for a single rule one of whose conditions
    is not satisfied. *)
Theorem run_rules_no_match (facts : gmap string value) :
  run_rules [] facts = []
  ∧ (∀ rules, Forall (λ r, evaluate_rule r facts = false) rules →
              run_rules rules facts = [])
  ∧ (∀ r cond, cond ∈ default [] (conditions r) →
               satisfies cond facts = false →
               run_rules [r] facts = []).
Proof.
  assert (∀ rules, Forall (λ r, evaluate_rule r facts = false) rules →
                   run_rules rules facts = []) as Hnone.
  { intros rules Hall. apply Permutation_nil_r. symmetry.
    rewrite run_rules_perm.
    induction Hall as [|r rules Hr _ IH]; [done|].
    rewrite filter_cons, decide_False by congruence. done. }
  split_and!; [done|done|].
  intros r cond Hin Hc. apply Hnone. constructor; [|constructor].
  by eapply for_conditions_unsatisfied.
Qed.

Lemma run_rules_no_match_witness :
  run_rules [Examples.R1] ∅ = [].
Proof.
  apply (proj2 (proj2 (run_rules_no_match ∅)) Examples.R1
           [VStr "cgpa"; VStr ">="; VFloat 3.5]).
  - simpl. apply list_elem_of_here.
  - vm_compute. reflexivity.
Defined.

(** C7. For the applicant with a CGPA of 3.8 and a family income of
    2000, and the single rule R1, [run_rules] returns exactly R1, whose
    action carries the decision AWARD. *)
Theorem run_rules_end_to_end :
  run_rules [Examples.R1] Examples.applicant = [Examples.R1]
  ∧ (action Examples.R1 ≫= lookup "decision"%string) = Some (VStr "AWARD").
Proof. split; vm_compute; reflexivity. Qed.

(** ** [run_rules] on the heap *)

Section heap_facts.
Implicit Types (h : Heap.heap) (l m : Heap.loc).
Implicit Types (items : list Heap.loc) (rs : list rule).

Lemma bind_run {X Y} (k : X → Heap.state Y) (c : Heap.state X) h :
  (c ≫= k) h = match c h with Some (a, h') => k a h' | None => None end.
Proof. done. Qed.

Lemma ret_run {X} (a : X) h : (mret a : Heap.state X) h = Some (a, h).
Proof. done. Qed.

Lemma filter_fmap {X Y} (g : X → Y) (P : Y → Prop)
    `{∀ y, Decision (P y)} (k : list X) :
  filter P (g <$> k) = g <$> filter (P ∘ g) k.
Proof.
  induction k as [|x k IH]; [done|].
  rewrite fmap_cons, !filter_cons, IH. simpl.
  destruct (decide (P (g x))); done.
Qed.

Lemma Forall2_zip {X Y} (R : X → Y → Prop) (xs : list X) (ys : list Y) :
  Forall2 R xs ys → Forall (λ p, R p.1 p.2) (zip xs ys).
Proof. induction 1; simpl; constructor; done. Qed.

Lemma Forall_unzip {X Y} (R : X → Y → Prop) (ps : list (X * Y)) :
  Forall (λ p, R p.1 p.2) ps → Forall2 R ps.*1 ps.*2.
Proof. induction 1; simpl; constructor; done. Qed.

Lemma sorted_pairs_rules items rs :
  length items = length rs →
  (Heap.sorted_pairs items rs).*2 = sorted priority_key true rs.
Proof.
  intros Hlen. unfold Heap.sorted_pairs. rewrite <-sorted_fmap.
  rewrite snd_zip by lia. done.
Qed.

Lemma sorted_pairs_perm items rs :
  length items = length rs → (Heap.sorted_pairs items rs).*1 ≡ₚ items.
Proof.
  intros Hlen. unfold Heap.sorted_pairs. rewrite sorted_perm.
  rewrite fst_zip by lia. done.
Qed.

Lemma sorted_pairs_keys items rs :
  length items = length rs →
  snd <$> sorted fst true (zip (priority_key <$> rs) items)
  = (Heap.sorted_pairs items rs).*1.
Proof.
  intros Hlen. unfold Heap.sorted_pairs.
  assert (zip (priority_key <$> rs) items
          = (λ p : Heap.loc * rule, (priority_key p.2, p.1)) <$> zip items rs)
    as ->.
  { clear. revert rs. induction items as [|l items IH]; intros [|r rs];
      simpl; try done. by rewrite IH. }
  rewrite sorted_fmap, <-list_fmap_compose. done.
Qed.

Lemma matched_pairs_rules f items rs :
  length items = length rs →
  (Heap.matched_pairs f items rs).*2 = run_rules rs f.
Proof.
  intros Hlen. rewrite run_rules_filter, <-(sorted_pairs_rules items rs) by done.
  unfold Heap.matched_pairs. by rewrite filter_fmap.
Qed.

Lemma matched_pairs_submseteq f items rs :
  length items = length rs → (Heap.matched_pairs f items rs).*1 ⊆+ items.
Proof.
  intros Hlen. rewrite <-(sorted_pairs_perm items rs Hlen) at 2.
  apply fmap_submseteq, sublist_submseteq, sublist_filter.
Qed.

Lemma matched_pairs_hold h f items rs :
  Forall2 (Heap.holds_rule h) items rs →
  Forall (λ p, Heap.holds_rule h p.1 p.2) (Heap.matched_pairs f items rs).
Proof.
  intros Hall. apply Forall2_zip in Hall.
  rewrite Forall_forall in Hall |- *. intros p Hp. apply Hall.
  apply list_elem_of_filter in Hp as [_ Hp].
  unfold Heap.sorted_pairs in Hp. by rewrite sorted_perm in Hp.
Qed.

Lemma mapM_key_of h items rs :
  Forall2 (Heap.holds_rule h) items rs →
  mapM Heap.key_of items h = Some (priority_key <$> rs, h).
Proof.
  induction 1 as [|l r items rs Hl _ IH]; [done|].
  cbn [mapM]. rewrite bind_run.
  unfold Heap.key_of at 1. rewrite bind_run. unfold Heap.get_rule at 1.
  rewrite Hl, ret_run, bind_run, IH. done.
Qed.

Lemma sorted_rules_of_spec h rules items rs :
  h !! rules = Some (Heap.OList items) →
  Forall2 (Heap.holds_rule h) items rs →
  Heap.sorted_rules_of rules h
  = Some (fresh (dom h),
          <[fresh (dom h) := Heap.OList (Heap.sorted_pairs items rs).*1]> h).
Proof.
  intros Hl Hall. unfold Heap.sorted_rules_of.
  rewrite bind_run. unfold Heap.get_list at 1. rewrite Hl.
  rewrite bind_run, (mapM_key_of h items rs Hall). unfold Heap.new.
  by rewrite sorted_pairs_keys by by eapply Forall2_length.
Qed.

(** The loop of [run_rules]: the matching references are appended, in
    order, to the list at [m], and nothing else is written. *)
Lemma for_rules_spec m facts f ps :
  ∀ h acc,
    h !! m = Some (Heap.OList acc) →
    h !! facts = Some (Heap.OFacts f) →
    Forall (λ p, Heap.holds_rule h p.1 p.2) ps →
    Heap.for_rules m facts ps.*1 h
    = Some (tt, <[m := Heap.OList
              (acc ++ (filter (λ p, evaluate_rule p.2 f = true) ps).*1)]> h).
Proof.
  induction ps as [|[l r] ps IH]; intros h acc Hm Hf Hall.
  { simpl. rewrite app_nil_r, insert_id by done. done. }
  apply Forall_cons in Hall as [Hl Hall]. simpl in Hl.
  rewrite fmap_cons. cbn [Heap.for_rules fst].
  rewrite bind_run. unfold Heap.get_rule at 1. rewrite Hl.
  rewrite bind_run. unfold Heap.get_facts at 1. rewrite Hf.
  rewrite bind_run.
  rewrite filter_cons. simpl.
  destruct (evaluate_rule r f) eqn:He.
  - unfold Heap.append. rewrite Hm.
    assert (l ≠ m ∧ facts ≠ m) as [Hlm Hfm].
    { split; intros ->; unfold Heap.holds_rule in *; congruence. }
    rewrite (IH _ (acc ++ [l])).
    + rewrite insert_insert_eq, decide_True by done.
      by rewrite fmap_cons, <-app_assoc.
    + apply lookup_insert_eq.
    + by rewrite lookup_insert_ne.
    + eapply Forall_impl; [exact Hall|]. intros [l' r'] Hl'.
      unfold Heap.holds_rule in *. simpl in *.
      rewrite lookup_insert_ne; [done|]. intros ->. congruence.
  - rewrite decide_False by congruence. by apply IH.
Qed.

(** What a call of [run_rules] returns and leaves behind. *)
Lemma run_rules_heap_spec h rules facts items rs f :
  Heap.inputs h rules facts items rs f →
  let sorted_rules := fresh (dom h) in
  let h1 := <[sorted_rules := Heap.OList (Heap.sorted_pairs items rs).*1]> h in
  let matched := fresh (dom h1) in
  Heap.run_rules rules facts h
  = Some (matched,
          <[matched := Heap.OList (Heap.matched_pairs f items rs).*1]> h1).
Proof.
  intros [Hl Hall Hf] sorted_rules h1 matched.
  assert (h !! sorted_rules = None) as Hs.
  { apply not_elem_of_dom, is_fresh. }
  assert (h1 !! matched = None) as Hm.
  { apply not_elem_of_dom, is_fresh. }
  assert (∀ l o, h !! l = Some o → h1 !! l = Some o) as Hkeep.
  { intros l o Ho. unfold h1. rewrite lookup_insert_ne; [done|].
    intros <-. congruence. }
  assert (∀ l o, h1 !! l = Some o →
                 <[matched := Heap.OList []]> h1 !! l = Some o) as Hkeep'.
  { intros l o Ho. rewrite lookup_insert_ne; [done|].
    intros <-. congruence. }
  unfold Heap.run_rules. rewrite bind_run.
  rewrite (sorted_rules_of_spec h rules items rs Hl Hall).
  fold sorted_rules h1.
  rewrite bind_run. unfold Heap.new at 1. fold matched.
  rewrite bind_run. unfold Heap.get_list at 1.
  rewrite (Hkeep' sorted_rules (Heap.OList (Heap.sorted_pairs items rs).*1))
    by apply lookup_insert_eq.
  rewrite bind_run.
  rewrite (for_rules_spec matched facts f (Heap.sorted_pairs items rs) _ []).
  - rewrite ret_run. by rewrite insert_insert_eq.
  - apply lookup_insert_eq.
  - by apply Hkeep', Hkeep.
  - apply Forall2_zip in Hall. rewrite Forall_forall in Hall |- *.
    intros p Hp. apply Hkeep', Hkeep, Hall.
    unfold Heap.sorted_pairs in Hp. by rewrite sorted_perm in Hp.
Qed.
End heap_facts.

(** C8. A call of [run_rules] leaves every object that existed before
    it as it was: the rule list, each rule and the facts are the same
    afterwards, and the list it returns is a new object whose content is
    determined by the rules and the facts alone.  The only module-level
    name the evaluation reads is the constant table [OPERATORS]. *)
Theorem run_rules_leaves_inputs_unchanged
    (h : Heap.heap) (rules facts : Heap.loc) (items : list Heap.loc)
    (rs : list rule) (f : gmap string value) :
  Heap.inputs h rules facts items rs f →
  ∃ matched h',
    Heap.run_rules rules facts h = Some (matched, h')
    ∧ (∀ l, is_Some (h !! l) → h' !! l = h !! l)
    ∧ Heap.inputs h' rules facts items rs f
    ∧ h !! matched = None
    ∧ ∃ out, h' !! matched = Some (Heap.OList out)
             ∧ Forall2 (Heap.holds_rule h') out (run_rules rs f).
Proof.
  intros Hin. pose proof (run_rules_heap_spec _ _ _ _ _ _ Hin) as Hrun.
  simpl in Hrun. destruct Hin as [Hl Hall Hf].
  set (sorted_rules := fresh (dom h)) in *.
  set (h1 := <[sorted_rules := _]> h) in *.
  set (matched := fresh (dom h1)) in *.
  assert (h !! sorted_rules = None) as Hs.
  { apply not_elem_of_dom, is_fresh. }
  assert (h1 !! matched = None) as Hm.
  { apply not_elem_of_dom, is_fresh. }
  assert (h !! matched = None) as Hm'.
  { destruct (h !! matched) as [o|] eqn:Ho; [|done].
    unfold h1 in Hm. rewrite lookup_insert_ne in Hm; [congruence|].
    intros <-. congruence. }
  assert (∀ l, is_Some (h !! l) →
    <[matched := Heap.OList (Heap.matched_pairs f items rs).*1]> h1 !! l
    = h !! l) as Hkeep.
  { intros l [o Ho]. unfold h1.
    rewrite !lookup_insert_ne; [done|intros <-; congruence..]. }
  assert (∀ l r, Heap.holds_rule h l r →
    Heap.holds_rule
      (<[matched := Heap.OList (Heap.matched_pairs f items rs).*1]> h1) l r)
    as Hrule.
  { intros l r Hr. unfold Heap.holds_rule in *. rewrite Hkeep; eauto. }
  eexists _, _. split; [exact Hrun|]. split_and!.
  - exact Hkeep.
  - split.
    + rewrite Hkeep; eauto.
    + eapply Forall2_impl; [exact Hall|]. exact Hrule.
    + rewrite Hkeep; eauto.
  - exact Hm'.
  - eexists. split; [apply lookup_insert_eq|].
    rewrite <-(matched_pairs_rules f items rs)
      by by eapply Forall2_length.
    apply Forall_unzip. eapply Forall_impl.
    + by apply matched_pairs_hold.
    + intros [l r]. apply Hrule.
Qed.

Lemma run_rules_leaves_inputs_unchanged_witness :
  ∃ matched h',
    Heap.run_rules 1%positive 4%positive Examples.store = Some (matched, h')
    ∧ (∀ l, is_Some (Examples.store !! l) → h' !! l = Examples.store !! l)
    ∧ Heap.inputs h' 1%positive 4%positive [2%positive; 3%positive]
        [Examples.A; Examples.R1] Examples.applicant
    ∧ Examples.store !! matched = None
    ∧ ∃ out, h' !! matched = Some (Heap.OList out)
             ∧ Forall2 (Heap.holds_rule h') out
                 (run_rules [Examples.A; Examples.R1] Examples.applicant).
Proof.
  apply (run_rules_leaves_inputs_unchanged Examples.store 1%positive
           4%positive [2%positive; 3%positive] [Examples.A; Examples.R1]
           Examples.applicant).
  split.
  - vm_compute. reflexivity.
  - repeat constructor.
  - vm_compute. reflexivity.
Defined.

(** C10. The list [run_rules] returns holds references to rule objects
    of the input list only, each at most as often as the input list holds
    it, and these objects are unmodified; as values, the rules returned
    are a sub-multiset of the rules given. *)
Theorem run_rules_returns_input_rules
    (h : Heap.heap) (rules facts : Heap.loc) (items : list Heap.loc)
    (rs : list rule) (f : gmap string value) :
  Heap.inputs h rules facts items rs f →
  ∃ matched h' out,
    Heap.run_rules rules facts h = Some (matched, h')
    ∧ h' !! matched = Some (Heap.OList out)
    ∧ out ⊆+ items
    ∧ (∀ l, l ∈ out → l ∈ items ∧ h' !! l = h !! l)
    ∧ run_rules rs f ⊆+ rs.
Proof.
  intros Hin. pose proof (run_rules_heap_spec _ _ _ _ _ _ Hin) as Hrun.
  simpl in Hrun. destruct Hin as [Hl Hall Hf].
  pose proof (Forall2_length _ _ _ Hall) as Hlen.
  set (sorted_rules := fresh (dom h)) in *.
  set (h1 := <[sorted_rules := _]> h) in *.
  set (matched := fresh (dom h1)) in *.
  assert (h !! sorted_rules = None) as Hs.
  { apply not_elem_of_dom, is_fresh. }
  assert (h1 !! matched = None) as Hm.
  { apply not_elem_of_dom, is_fresh. }
  pose proof (matched_pairs_submseteq f items rs Hlen) as Hsub.
  eexists _, _, _. split; [exact Hrun|]. split_and!.
  - apply lookup_insert_eq.
  - exact Hsub.
  - intros l Hout.
    assert (l ∈ items) as Hitem.
    { eapply elem_of_submseteq; [exact Hout|exact Hsub]. }
    split; [done|].
    destruct (proj1 (list_elem_of_lookup _ _) Hitem) as [i Hi].
    destruct (Forall2_lookup_l _ _ _ _ _ Hall Hi) as (r & _ & Hr).
    unfold Heap.holds_rule in Hr. unfold h1.
    rewrite !lookup_insert_ne; [done| |].
    + intros <-. congruence.
    + intros <-. unfold h1 in Hm.
      rewrite lookup_insert_ne in Hm; [congruence|].
      intros <-. congruence.
  - rewrite run_rules_filter.
    transitivity (sorted priority_key true rs).
    + apply sublist_submseteq, sublist_filter.
    + apply Permutation_submseteq, sorted_perm.
Qed.

Lemma run_rules_returns_input_rules_witness :
  ∃ matched h' out,
    Heap.run_rules 1%positive 4%positive Examples.store = Some (matched, h')
    ∧ h' !! matched = Some (Heap.OList out)
    ∧ out ⊆+ [2%positive; 3%positive]
    ∧ (∀ l, l ∈ out →
            l ∈ [2%positive; 3%positive] ∧ h' !! l = Examples.store !! l)
    ∧ run_rules [Examples.A; Examples.R1] Examples.applicant
      ⊆+ [Examples.A; Examples.R1].
Proof.
  apply (run_rules_returns_input_rules Examples.store 1%positive
           4%positive [2%positive; 3%positive] [Examples.A; Examples.R1]
           Examples.applicant).
  split.
  - vm_compute. reflexivity.
  - repeat constructor.
  - vm_compute. reflexivity.
Defined.

(** * Further properties *)

(** ** Conditions of one rule *)

Lemma loop_body_same_facts facts facts' cond :
  (∀ (field : string) op value,
     cond = [VStr field; op; value] → facts !! field = facts' !! field) →
  loop_body facts cond = loop_body facts' cond.
Proof.
  intros Hsame. unfold loop_body.
  destruct cond as [|field [|op [|value [|? ?]]]]; try done.
  destruct field as [| | | |s]; try done.
  unfold contains, condition_try, getitem.
  by rewrite (Hsame s op value eq_refl).
Qed.

(** X1. The conditions of a rule are a conjunction of a set: a rule that
    matches still matches when conditions are removed, and two rules
    with the same conditions, in any order and with any repetitions,
    match the same facts. *)
Theorem evaluate_rule_conditions_as_set
    (r r' : rule) (facts : gmap string value) :
  (∀ cond, cond ∈ default [] (conditions r) →
           cond ∈ default [] (conditions r')) →
  (evaluate_rule r' facts = true → evaluate_rule r facts = true)
  ∧ ((∀ cond, cond ∈ default [] (conditions r') →
              cond ∈ default [] (conditions r)) →
     evaluate_rule r facts = evaluate_rule r' facts).
Proof.
  intros Hsub.
  assert (∀ a b : rule,
    (∀ cond, cond ∈ default [] (conditions a) →
             cond ∈ default [] (conditions b)) →
    evaluate_rule b facts = true → evaluate_rule a facts = true) as Hmono.
  { intros a b Hab. rewrite !evaluate_rule_Forall, !Forall_forall. eauto. }
  split; [by apply Hmono|].
  intros Hsup. destruct (evaluate_rule r' facts) eqn:Hr'.
  - by apply (Hmono r r').
  - destruct (evaluate_rule r facts) eqn:Hr; [|done].
    rewrite <-Hr'. symmetry. by apply (Hmono r' r).
Qed.

Lemma evaluate_rule_conditions_as_set_witness :
  let c1 := [VStr "cgpa"; VStr ">="; VFloat 3.5] in
  let c2 := [VStr "family_income"; VStr "<="; VInt 3000] in
  let r := {| name := None; priority := None; action := None;
              conditions := Some [c2; c1; c2] |} in
  (evaluate_rule Examples.R1 Examples.applicant = true →
   evaluate_rule r Examples.applicant = true)
  ∧ ((∀ cond, cond ∈ default [] (conditions Examples.R1) →
              cond ∈ default [] (conditions r)) →
     evaluate_rule r Examples.applicant
     = evaluate_rule Examples.R1 Examples.applicant).
Proof.
  intros c1 c2 r.
  apply (evaluate_rule_conditions_as_set r Examples.R1 Examples.applicant).
  intros cond Hc. simpl in *.
  apply elem_of_cons in Hc as [-> | Hc];
    [|apply elem_of_cons in Hc as [-> | Hc];
      [|apply list_elem_of_singleton in Hc as ->]].
  - apply list_elem_of_further, list_elem_of_here.
  - apply list_elem_of_here.
  - apply list_elem_of_further, list_elem_of_here.
Defined.

(** X2. A rule reads only the facts its conditions name: two fact
    dictionaries that agree on every field named by a condition of the
    rule give the same verdict. *)
Theorem evaluate_rule_reads_named_fields
    (r : rule) (facts facts' : gmap string value) :
  (∀ (field : string) op value,
     [VStr field; op; value] ∈ default [] (conditions r) →
     facts !! field = facts' !! field) →
  evaluate_rule r facts = evaluate_rule r facts'.
Proof.
  unfold evaluate_rule. generalize (default [] (conditions r)).
  intros conds Hsame. induction conds as [|cond conds IH]; [done|].
  cbn [for_conditions].
  rewrite (loop_body_same_facts facts facts' cond).
  - rewrite IH; [done|]. intros field op value Hin.
    apply (Hsame field op value). by apply list_elem_of_further.
  - intros field op value ->. apply (Hsame field op value).
    apply list_elem_of_here.
Qed.

Lemma evaluate_rule_reads_named_fields_witness :
  evaluate_rule Examples.R1 Examples.applicant
  = evaluate_rule Examples.R1
      (<["current_semester"%string := VInt 3]> Examples.applicant).
Proof.
  apply (evaluate_rule_reads_named_fields Examples.R1 Examples.applicant
           (<["current_semester"%string := VInt 3]> Examples.applicant)).
  intros field op value Hin. simpl in Hin.
  apply elem_of_cons in Hin as [Hin | Hin];
    [|apply list_elem_of_singleton in Hin];
    injection Hin as -> _ _; vm_compute; reflexivity.
Defined.

(** ** The operators on the operands of a condition *)

Lemma satisfies_operands facts (field : string) op left value :
  facts !! field = Some left →
  satisfies [VStr field; op; value] facts
  = holds (compare_with op (operands left value).1 (operands left value).2).
Proof.
  intros Hf. unfold operands.
  destruct (isinstance_int_float value || isinstance_int_float left) eqn:Hn.
  - rewrite (satisfies_numeric facts field op value left Hf Hn).
    destruct (py_float left); [|done]. by destruct (py_float value).
  - by apply satisfies_direct.
Qed.

(** A condition on a field is either unsatisfied for want of the field,
    or compares the fact found under a string key. *)
Lemma satisfies_field_cases facts field op value :
  satisfies [field; op; value] facts = false
  ∨ ∃ (s : string) left, field = VStr s ∧ facts !! s = Some left.
Proof.
  destruct (contains facts field) eqn:Hc.
  - right. destruct field as [| | | |s]; try done. simpl in Hc.
    apply bool_decide_eq_true in Hc as [left Hl]. eauto.
  - left. by apply satisfies_absent.
Qed.

Lemma compare_with_table a b :
  compare_with (VStr "==") a b = operator.eq a b
  ∧ compare_with (VStr "!=") a b = operator.ne a b
  ∧ compare_with (VStr ">=") a b = operator.ge a b
  ∧ compare_with (VStr "<=") a b = operator.le a b
  ∧ compare_with (VStr ">") a b = operator.gt a b
  ∧ compare_with (VStr "<") a b = operator.lt a b.
Proof.
  unfold compare_with, getitem. rewrite !OPERATORS_lookup.
  split_and!; reflexivity.
Qed.

Lemma py_eq_order a b c :
  py_order a b = Ok c →
  py_eq a b = match c with Some Eq => true | _ => false end.
Proof.
  unfold py_order, py_eq.
  destruct (as_number a) as [x|] eqn:Ha, (as_number b) as [y|] eqn:Hb;
    try done.
  - by intros [= <-].
  - destruct a; try done. destruct b; try done. intros [= <-].
    destruct (String.compare s s0) eqn:Hc.
    + apply String.compare_eq_iff in Hc as ->. apply String.eqb_refl.
    + apply String.eqb_neq. intros ->.
      pose proof (String.compare_antisym s0 s0) as Hanti.
      rewrite Hc in Hanti. discriminate Hanti.
    + apply String.eqb_neq. intros ->.
      pose proof (String.compare_antisym s0 s0) as Hanti.
      rewrite Hc in Hanti. discriminate Hanti.
Qed.

Lemma py_eq_unordered a b e :
  py_order a b = Raise e → a ≠ VNone ∨ b ≠ VNone → py_eq a b = false.
Proof.
  unfold py_order, py_eq.
  destruct (as_number a) as [x|] eqn:Ha, (as_number b) as [y|] eqn:Hb;
    try done.
  destruct a; try done; destruct b; try done. intros _ [H | H]; done.
Qed.

Lemma contradictory_operands o1 o2 a b :
  (o1, o2) ∈ contradictory_operators →
  holds (compare_with (VStr o1) a b) && holds (compare_with (VStr o2) a b)
  = false.
Proof.
  intros Hin. destruct (compare_with_table a b)
    as (Heq & Hne & Hge & Hle & Hgt & Hlt).
  unfold contradictory_operators in Hin.
  repeat (apply elem_of_cons in Hin as [[= -> ->] | Hin]);
    [..|by apply elem_of_nil in Hin];
    rewrite ?Heq, ?Hne, ?Hge, ?Hle, ?Hgt, ?Hlt;
    unfold operator.eq, operator.ne, operator.ge, operator.le,
      operator.gt, operator.lt; simpl;
    try (by destruct (py_eq a b));
    destruct (py_order a b) as [c|e] eqn:Ho; simpl; try done;
    rewrite ?(py_eq_order a b c Ho);
    by destruct c as [[]|].
Qed.

(** X3. Whenever the field is present, [!=] is satisfied exactly when
    [==] is not: also between values of types that do not compare,
    where every ordering fails but [!=] holds. *)
Theorem ne_is_not_eq
    (facts : gmap string value) (field : string) (left value : value) :
  facts !! field = Some left →
  satisfies [VStr field; VStr "!="; value] facts
  = negb (satisfies [VStr field; VStr "=="; value] facts).
Proof.
  intros Hf. rewrite !(satisfies_operands facts field _ left value Hf).
  destruct (compare_with_table (operands left value).1
              (operands left value).2) as (-> & -> & _).
  reflexivity.
Qed.

Lemma ne_is_not_eq_witness :
  satisfies [VStr "score"; VStr "!="; VInt 50]
    {[ "score"%string := VStr "abc" ]}
  = negb (satisfies [VStr "score"; VStr "=="; VInt 50]
            {[ "score"%string := VStr "abc" ]}).
Proof.
  apply (ne_is_not_eq {[ "score"%string := VStr "abc" ]} "score"%string
           (VStr "abc") (VInt 50)).
  vm_compute. reflexivity.
Defined.

(** X4. A rule that holds two contradictory conditions on the same field
    and literal ([<] with [>=], [>] with [<=], [==] with [!=], [<] with
    [>], or [==] with [<] or [>]) matches no facts. *)
Theorem contradictory_conditions_never_match
    (r : rule) (facts : gmap string value) (field value : value)
    (o1 o2 : string) :
  (o1, o2) ∈ contradictory_operators →
  [field; VStr o1; value] ∈ default [] (conditions r) →
  [field; VStr o2; value] ∈ default [] (conditions r) →
  evaluate_rule r facts = false.
Proof.
  intros Ho H1 H2.
  destruct (satisfies_field_cases facts field (VStr o1) value)
    as [Hs | (s & left & -> & Hf)].
  { exact (for_conditions_unsatisfied _ _ _ H1 Hs). }
  pose proof (contradictory_operands o1 o2 (operands left value).1
                (operands left value).2 Ho) as Hc.
  rewrite <-!(satisfies_operands facts s _ left value Hf) in Hc.
  apply andb_false_iff in Hc as [Hc | Hc].
  - exact (for_conditions_unsatisfied _ _ _ H1 Hc).
  - exact (for_conditions_unsatisfied _ _ _ H2 Hc).
Qed.

Lemma contradictory_conditions_never_match_witness :
  evaluate_rule
    {| name := None; priority := None; action := None;
       conditions := Some [ [VStr "cgpa"; VStr "<"; VFloat 3.5];
                            [VStr "cgpa"; VStr ">="; VFloat 3.5] ] |}
    Examples.applicant = false.
Proof.
  apply (contradictory_conditions_never_match _ Examples.applicant
           (VStr "cgpa") (VFloat 3.5) "<"%string ">="%string).
  - apply list_elem_of_here.
  - apply list_elem_of_here.
  - apply list_elem_of_further, list_elem_of_here.
Defined.

Lemma operands_not_both_none left value :
  left ≠ VNone ∨ value ≠ VNone →
  (operands left value).1 ≠ VNone ∨ (operands left value).2 ≠ VNone.
Proof.
  intros Hn. unfold operands. destruct (_ || _); [|done].
  destruct (py_float left); [|done]. destruct (py_float value); [|done].
  by left.
Qed.

Lemma weak_order_operands a b :
  a ≠ VNone ∨ b ≠ VNone →
  holds (compare_with (VStr ">=") a b)
  = holds (compare_with (VStr ">") a b) || holds (compare_with (VStr "==") a b)
  ∧ holds (compare_with (VStr "<=") a b)
    = holds (compare_with (VStr "<") a b)
      || holds (compare_with (VStr "==") a b).
Proof.
  intros Hn. destruct (compare_with_table a b)
    as (-> & _ & -> & -> & -> & ->).
  unfold operator.eq, operator.ge, operator.le, operator.gt, operator.lt.
  destruct (py_order a b) as [c|e] eqn:Ho; simpl.
  - rewrite (py_eq_order a b c Ho). by destruct c as [[]|].
  - by rewrite (py_eq_unordered a b e Ho Hn).
Qed.

(** X5. Unless the fact and the literal are both [null], [>=] is
    satisfied exactly when [>] or [==] is, and [<=] exactly when [<] or
    [==] is.  (Of two [null]s, [==] holds while [>=] and [<=] raise.) *)
Theorem weak_orders_decompose
    (facts : gmap string value) (field : string) (value : value) :
  facts !! field ≠ Some VNone ∨ value ≠ VNone →
  satisfies [VStr field; VStr ">="; value] facts
  = satisfies [VStr field; VStr ">"; value] facts
    || satisfies [VStr field; VStr "=="; value] facts
  ∧ satisfies [VStr field; VStr "<="; value] facts
    = satisfies [VStr field; VStr "<"; value] facts
      || satisfies [VStr field; VStr "=="; value] facts.
Proof.
  intros Hn. destruct (facts !! field) as [left|] eqn:Hf.
  - rewrite !(satisfies_operands facts field _ left value Hf).
    apply weak_order_operands, operands_not_both_none.
    destruct Hn as [Hn | Hn]; [left|by right]. congruence.
  - rewrite !satisfies_absent; [done|simpl; rewrite Hf..];
      by apply bool_decide_eq_false_2, is_Some_None.
Qed.

Lemma weak_orders_decompose_witness :
  satisfies [VStr "cgpa"; VStr ">="; VFloat 3.5] Examples.applicant
  = satisfies [VStr "cgpa"; VStr ">"; VFloat 3.5] Examples.applicant
    || satisfies [VStr "cgpa"; VStr "=="; VFloat 3.5] Examples.applicant
  ∧ satisfies [VStr "cgpa"; VStr "<="; VFloat 3.5] Examples.applicant
    = satisfies [VStr "cgpa"; VStr "<"; VFloat 3.5] Examples.applicant
      || satisfies [VStr "cgpa"; VStr "=="; VFloat 3.5] Examples.applicant.
Proof.
  apply (weak_orders_decompose Examples.applicant "cgpa"%string (VFloat 3.5)).
  right. discriminate.
Defined.

(** X6. When the fact is a number and the literal is not one and does
    not read as one ([null], or a string that [float] rejects), nothing
    is converted and only [!=] is satisfied: [==] is false and every
    ordering raises. *)
Theorem number_against_non_number
    (facts : gmap string value) (field : string) (left value : value)
    (e : exn) :
  facts !! field = Some left →
  isinstance_int_float left = true →
  isinstance_int_float value = false →
  py_float value = Raise e →
  satisfies [VStr field; VStr "!="; value] facts = true
  ∧ ∀ op, op ≠ VStr "!=" → satisfies [VStr field; op; value] facts = false.
Proof.
  intros Hf Hl Hv He.
  assert (operands left value = (left, value)) as Hop.
  { unfold operands. rewrite Hl, orb_true_r, He.
    by destruct (py_float left). }
  assert (∃ x, as_number left = Some x) as [x Hx].
  { destruct left; try done; eauto. }
  assert (as_number value = None) as Hy.
  { by destruct value. }
  assert (py_eq left value = false) as Heq.
  { unfold py_eq. by rewrite Hx, Hy. }
  assert (py_order left value = Raise TypeError) as Hord.
  { unfold py_order. by rewrite Hx, Hy. }
  split.
  - rewrite (satisfies_operands facts field _ left value Hf), Hop. simpl.
    destruct (compare_with_table left value) as (_ & -> & _).
    unfold operator.ne. by rewrite Heq.
  - intros op Hne.
    rewrite (satisfies_operands facts field _ left value Hf), Hop. simpl.
    unfold compare_with.
    destruct op as [| | | |s]; try done. simpl.
    rewrite OPERATORS_lookup.
    repeat case_decide; simplify_eq/=;
      unfold operator.eq, operator.ge, operator.le, operator.gt, operator.lt;
      rewrite ?Heq, ?Hord; done.
Qed.

Lemma number_against_non_number_witness :
  satisfies [VStr "family_income"; VStr "!="; VStr "low"] Examples.applicant
  = true
  ∧ ∀ op, op ≠ VStr "!=" →
      satisfies [VStr "family_income"; op; VStr "low"] Examples.applicant
      = false.
Proof.
  apply (number_against_non_number Examples.applicant
           "family_income"%string (VInt 2000) (VStr "low") ValueError);
    vm_compute; reflexivity.
Defined.

(** ** More on [sorted] *)

Section sorted_more.
Context {A : Type} (key : A → Z) (reverse : bool).
Implicit Types (x y : A) (l : list A).

Lemma insert_sorted_front x l :
  Forall (λ y, in_front key reverse x y = true) l →
  insert_sorted key reverse x l = x :: l.
Proof. destruct 1 as [|y l Hy _]; [done|]. simpl. by rewrite Hy. Qed.

(** Sorting a list that is in order changes nothing. *)
Lemma sorted_of_ordered l :
  StronglySorted (λ a b, in_front key reverse a b = true) l →
  sorted key reverse l = l.
Proof.
  induction 1 as [|x l _ IH Hall]; [done|].
  unfold sorted in *. cbn [foldr]. rewrite IH.
  by apply insert_sorted_front.
Qed.

Lemma ordered_filter (R : A → A → Prop) (P : A → Prop)
    `{∀ x, Decision (P x)} l :
  StronglySorted R l → StronglySorted R (filter P l).
Proof.
  induction 1 as [|x l _ IH Hall]; [constructor|].
  rewrite filter_cons. destruct (decide (P x)); [|done].
  constructor; [done|]. rewrite Forall_forall in Hall |- *.
  intros y [_ Hy]%list_elem_of_filter. by apply Hall.
Qed.

Lemma filter_insert_sorted (P : A → Prop) `{∀ x, Decision (P x)} x l :
  StronglySorted (λ a b, in_front key reverse a b = true) l →
  filter P (insert_sorted key reverse x l)
  = if decide (P x) then insert_sorted key reverse x (filter P l)
    else filter P l.
Proof.
  induction 1 as [|y l Hs IH Hall]; simpl.
  { rewrite filter_cons, filter_nil. by destruct (decide (P x)). }
  destruct (in_front key reverse x y) eqn:Hxy.
  - rewrite (filter_cons _ x). destruct (decide (P x)); [|done].
    rewrite insert_sorted_front; [done|].
    rewrite Forall_forall. intros z [_ Hz]%list_elem_of_filter.
    apply elem_of_cons in Hz as [-> | Hz]; [done|].
    rewrite Forall_forall in Hall.
    eapply in_front_trans; [exact Hxy|]. by apply Hall.
  - rewrite (filter_cons _ y), IH, (filter_cons _ y).
    destruct (decide (P x)), (decide (P y)); try done.
    simpl. by rewrite Hxy.
Qed.

(** A stable sort commutes with the removal of elements. *)
Lemma sorted_filter (P : A → Prop) `{∀ x, Decision (P x)} l :
  sorted key reverse (filter P l) = filter P (sorted key reverse l).
Proof.
  induction l as [|x l IH]; [done|].
  change (sorted key reverse (x :: l))
    with (insert_sorted key reverse x (sorted key reverse l)).
  rewrite filter_insert_sorted by apply sorted_ordered.
  rewrite filter_cons. destruct (decide (P x)); [|done].
  by rewrite <-IH.
Qed.

Lemma key_inj_on l x y :
  NoDup (key <$> l) → x ∈ l → y ∈ l → key x = key y → x = y.
Proof.
  induction l as [|z l IH]; intros Hnd Hx Hy Hk.
  { by apply elem_of_nil in Hx. }
  rewrite fmap_cons in Hnd. apply NoDup_cons in Hnd as [Hz Hnd].
  apply elem_of_cons in Hx as [-> | Hx];
    apply elem_of_cons in Hy as [-> | Hy]; try done.
  - exfalso. apply Hz. rewrite Hk. by apply list_elem_of_fmap_2.
  - exfalso. apply Hz. rewrite <-Hk. by apply list_elem_of_fmap_2.
  - by apply IH.
Qed.

(** With pairwise distinct keys the result does not depend on the order
    of the input. *)
Lemma sorted_distinct_keys l l' :
  l ≡ₚ l' → NoDup (key <$> l) →
  sorted key reverse l = sorted key reverse l'.
Proof.
  intros Hp Hnd.
  apply (StronglySorted_unique_strong
           (λ a b, in_front key reverse a b = true));
    [|apply sorted_ordered..|by rewrite !sorted_perm].
  intros x y Hx Hy Hxy Hyx. apply (key_inj_on l); [done|..].
  - by rewrite sorted_perm in Hx.
  - by rewrite sorted_perm, <-Hp in Hy.
  - unfold in_front in *. destruct reverse; lia.
Qed.
End sorted_more.

Lemma filter_filter_same {A} (P : A → Prop) `{∀ x, Decision (P x)}
    (l : list A) :
  filter P (filter P l) = filter P l.
Proof.
  induction l as [|x l IH]; [done|]. rewrite filter_cons.
  destruct (decide (P x)) as [HP|HP]; [|done].
  by rewrite filter_cons, decide_True, IH by done.
Qed.

Lemma filter_filter_comm {A} (P Q : A → Prop)
    `{∀ x, Decision (P x), ∀ x, Decision (Q x)} (l : list A) :
  filter P (filter Q l) = filter Q (filter P l).
Proof.
  induction l as [|x l IH]; [done|]. rewrite !(filter_cons _ x l).
  destruct (decide (P x)) as [HP|HP], (decide (Q x)) as [HQ|HQ];
    rewrite ?filter_cons, ?decide_True, ?decide_False by done;
    by rewrite IH.
Qed.

Lemma run_rules_ordered rules facts :
  StronglySorted (λ a b, in_front priority_key true a b = true)
    (run_rules rules facts).
Proof. rewrite run_rules_filter. apply ordered_filter, sorted_ordered. Qed.

(** ** More on [run_rules] *)

(** X7. The result is in descending order of priority, so its first
    rule has the highest priority of all the rules that match (what the
    page announces as the highest-priority match first). *)
Theorem run_rules_highest_first
    (rules : list rule) (facts : gmap string value) :
  StronglySorted (λ a b, priority_key b ≤ priority_key a)
    (run_rules rules facts)
  ∧ ∀ top rest, run_rules rules facts = top :: rest →
      ∀ r, r ∈ rules → evaluate_rule r facts = true →
           priority_key r ≤ priority_key top.
Proof.
  assert (StronglySorted (λ a b, priority_key b ≤ priority_key a)
            (run_rules rules facts)) as Hs.
  { rewrite run_rules_filter. apply ordered_filter, sorted_descending. }
  split; [done|]. intros top rest Hrun r Hin Hr.
  assert (r ∈ run_rules rules facts) as Hout.
  { rewrite run_rules_perm. by apply list_elem_of_filter. }
  rewrite Hrun in Hs, Hout. apply StronglySorted_inv in Hs as [_ Hall].
  apply elem_of_cons in Hout as [-> | Hout]; [lia|].
  rewrite Forall_forall in Hall. by apply Hall.
Qed.

Lemma run_rules_highest_first_witness :
  priority_key Examples.A ≤ priority_key Examples.R1.
Proof.
  apply (proj2 (run_rules_highest_first [Examples.A; Examples.R1]
                  Examples.applicant) Examples.R1 [Examples.A]).
  - vm_compute. reflexivity.
  - apply list_elem_of_here.
  - reflexivity.
Defined.

(** X8. Running the rules again on the rules already matched returns
    them unchanged. *)
Theorem run_rules_idempotent (rules : list rule) (facts : gmap string value) :
  run_rules (run_rules rules facts) facts = run_rules rules facts.
Proof.
  rewrite (run_rules_filter (run_rules rules facts)).
  rewrite sorted_of_ordered by apply run_rules_ordered.
  rewrite run_rules_filter. apply filter_filter_same.
Qed.

(** X9. Removing rules from the rule set removes them from the result
    and changes nothing else: the remaining matches keep their order. *)
Theorem run_rules_without
    (keep : rule → bool) (rules : list rule) (facts : gmap string value) :
  run_rules (filter (λ r, keep r = true) rules) facts
  = filter (λ r, keep r = true) (run_rules rules facts).
Proof.
  rewrite !run_rules_filter, sorted_filter. apply filter_filter_comm.
Qed.

(** X10. Reordering the rule set permutes the result at most, and
    leaves it unchanged when no two rules have the same priority. *)
Theorem run_rules_input_order
    (rules rules' : list rule) (facts : gmap string value) :
  rules ≡ₚ rules' →
  run_rules rules facts ≡ₚ run_rules rules' facts
  ∧ (NoDup (priority_key <$> rules) →
     run_rules rules facts = run_rules rules' facts).
Proof.
  intros Hp. split.
  - by rewrite !run_rules_perm, Hp.
  - intros Hnd. rewrite !run_rules_filter.
    by rewrite (sorted_distinct_keys priority_key true rules rules').
Qed.

Lemma run_rules_input_order_witness :
  run_rules [Examples.A; Examples.R1] Examples.applicant
  ≡ₚ run_rules [Examples.R1; Examples.A] Examples.applicant
  ∧ (NoDup (priority_key <$> [Examples.A; Examples.R1]) →
     run_rules [Examples.A; Examples.R1] Examples.applicant
     = run_rules [Examples.R1; Examples.A] Examples.applicant).
Proof.
  apply (run_rules_input_order [Examples.A; Examples.R1]
           [Examples.R1; Examples.A] Examples.applicant).
  apply Permutation_swap.
Defined.

(** ** Two calls on the heap *)

Lemma lookup_alloc (h : Heap.heap) (o v : Heap.object) (l : Heap.loc) :
  h !! l = Some v → <[fresh (dom h) := o]> h !! l = Some v.
Proof.
  intros Hl. rewrite lookup_insert_ne; [done|]. intros <-.
  assert (h !! fresh (dom h) = None) as Hfresh
    by apply not_elem_of_dom, is_fresh.
  congruence.
Qed.

Lemma inputs_alloc (h : Heap.heap) (o : Heap.object) rules facts items rs f :
  Heap.inputs h rules facts items rs f →
  Heap.inputs (<[fresh (dom h) := o]> h) rules facts items rs f.
Proof.
  intros [Hl Hall Hf]. split.
  - by apply lookup_alloc.
  - eapply Forall2_impl; [exact Hall|]. intros l r. apply lookup_alloc.
  - by apply lookup_alloc.
Qed.

(** X11. A second call on the heap the first one leaves returns a new
    list object, different from the first result, with the same
    references in the same order; the second call leaves every object
    of that heap, the first result and the inputs among them, as it
    was. *)
Theorem run_rules_twice
    (h : Heap.heap) (rules facts : Heap.loc) (items : list Heap.loc)
    (rs : list rule) (f : gmap string value) :
  Heap.inputs h rules facts items rs f →
  ∃ m1 h1 m2 h2 out,
    Heap.run_rules rules facts h = Some (m1, h1)
    ∧ Heap.run_rules rules facts h1 = Some (m2, h2)
    ∧ h !! m1 = None
    ∧ h1 !! m1 = Some (Heap.OList out)
    ∧ h1 !! m2 = None
    ∧ m1 ≠ m2
    ∧ h2 !! m2 = Some (Heap.OList out)
    ∧ h2 !! m1 = Some (Heap.OList out)
    ∧ (∀ l, is_Some (h1 !! l) → h2 !! l = h1 !! l)
    ∧ Heap.inputs h1 rules facts items rs f
    ∧ Heap.inputs h2 rules facts items rs f.
Proof.
  intros Hin.
  pose proof (run_rules_heap_spec _ _ _ _ _ _ Hin) as Hrun1.
  cbv zeta in Hrun1.
  set (s1 := fresh (dom h)) in Hrun1.
  set (h0 := <[s1 := Heap.OList (Heap.sorted_pairs items rs).*1]> h)
    in Hrun1.
  set (m1 := fresh (dom h0)) in Hrun1.
  set (h1 := <[m1 := Heap.OList (Heap.matched_pairs f items rs).*1]> h0)
    in Hrun1.
  assert (Heap.inputs h1 rules facts items rs f) as Hin1.
  { unfold h1, m1, h0, s1. by do 2 apply inputs_alloc. }
  pose proof (run_rules_heap_spec _ _ _ _ _ _ Hin1) as Hrun2.
  cbv zeta in Hrun2.
  set (s2 := fresh (dom h1)) in Hrun2.
  set (h1' := <[s2 := Heap.OList (Heap.sorted_pairs items rs).*1]> h1)
    in Hrun2.
  set (m2 := fresh (dom h1')) in Hrun2.
  set (h2 := <[m2 := Heap.OList (Heap.matched_pairs f items rs).*1]> h1')
    in Hrun2.
  assert (h0 !! m1 = None) as Hm1 by apply not_elem_of_dom, is_fresh.
  assert (h1 !! s2 = None) as Hs2 by apply not_elem_of_dom, is_fresh.
  assert (h1' !! m2 = None) as Hm2 by apply not_elem_of_dom, is_fresh.
  assert (h1 !! m1
          = Some (Heap.OList (Heap.matched_pairs f items rs).*1)) as Hres1.
  { unfold h1. apply lookup_insert_eq. }
  assert (∀ l, is_Some (h1 !! l) → h2 !! l = h1 !! l) as Hkeep.
  { intros l [o Ho]. rewrite Ho. unfold h2, m2, h1', s2.
    by do 2 apply lookup_alloc. }
  assert (h1 !! m2 = None) as Hm2'.
  { destruct (h1 !! m2) as [o|] eqn:Ho; [|done].
    unfold h1' in Hm2. rewrite lookup_insert_ne in Hm2; [congruence|].
    intros <-. congruence. }
  exists m1, h1, m2, h2, (Heap.matched_pairs f items rs).*1.
  split_and!; try done.
  - destruct (h !! m1) as [o|] eqn:Ho; [|done].
    unfold h0 in Hm1. rewrite lookup_insert_ne in Hm1; [congruence|].
    intros <-.
    assert (h !! s1 = None) by apply not_elem_of_dom, is_fresh.
    congruence.
  - intros Heq. rewrite <-Heq in Hm2'. congruence.
  - unfold h2. apply lookup_insert_eq.
  - rewrite Hkeep; eauto.
  - unfold h2, m2, h1', s2. by do 2 apply inputs_alloc.
Qed.

Lemma run_rules_twice_witness :
  ∃ m1 h1 m2 h2 out,
    Heap.run_rules 1%positive 4%positive Examples.store = Some (m1, h1)
    ∧ Heap.run_rules 1%positive 4%positive h1 = Some (m2, h2)
    ∧ Examples.store !! m1 = None
    ∧ h1 !! m1 = Some (Heap.OList out)
    ∧ h1 !! m2 = None
    ∧ m1 ≠ m2
    ∧ h2 !! m2 = Some (Heap.OList out)
    ∧ h2 !! m1 = Some (Heap.OList out)
    ∧ (∀ l, is_Some (h1 !! l) → h2 !! l = h1 !! l)
    ∧ Heap.inputs h1 1%positive 4%positive [2%positive; 3%positive]
        [Examples.A; Examples.R1] Examples.applicant
    ∧ Heap.inputs h2 1%positive 4%positive [2%positive; 3%positive]
        [Examples.A; Examples.R1] Examples.applicant.
Proof.
  apply (run_rules_twice Examples.store 1%positive 4%positive
           [2%positive; 3%positive] [Examples.A; Examples.R1]
           Examples.applicant).
  split.
  - vm_compute. reflexivity.
  - repeat constructor.
  - vm_compute. reflexivity.
Defined.

(** ** The page *)

Lemma show_rules_length (matched : list rule) :
  length (mjoin (show_rule <$> matched)) = (5 * length matched)%nat.
Proof.
  induction matched as [|r matched IH]; [done|].
  rewrite fmap_cons.
  change (mjoin (show_rule r :: (show_rule <$> matched)))
    with (show_rule r ++ mjoin (show_rule <$> matched)).
  rewrite length_app, IH. simpl. lia.
Qed.

(** X12. The facts of the page hold exactly its six fields, all of
    them numbers: a rule with a condition on any other field never
    matches, whatever the operator and the literal, and a condition on
    the CGPA or on the family income whose literal converts with [float]
    (a number, or a string that reads as one) is decided on the floats. *)
Theorem app_facts_conditions
    (cgpa family_income : float)
    (co_curricular_score community_service_hours
     current_semester disciplinary_actions : Z) :
  let facts := app_facts cgpa family_income co_curricular_score
                 community_service_hours current_semester
                 disciplinary_actions in
  (∀ (r : rule) field op value,
     [field; op; value] ∈ default [] (conditions r) →
     field ∉ VStr <$> app_fields →
     evaluate_rule r facts = false)
  ∧ (∀ op value x, py_float value = Ok x →
       satisfies [VStr "cgpa"; op; value] facts
       = holds (compare_with op (VFloat cgpa) (VFloat x))
       ∧ satisfies [VStr "family_income"; op; value] facts
         = holds (compare_with op (VFloat family_income) (VFloat x))).
Proof.
  intros facts. split.
  - intros r field op value Hin Hfield.
    apply (for_conditions_unsatisfied _ _ _ Hin), satisfies_absent.
    destruct field as [| | | |s]; try done. simpl.
    apply bool_decide_eq_false_2. intros [v Hv].
    apply Hfield, list_elem_of_fmap_2.
    unfold facts, app_facts in Hv. unfold app_fields.
    repeat (apply lookup_insert_Some in Hv as [[<- _] | [_ Hv]];
            [set_solver|]).
    apply lookup_singleton_Some in Hv as [<- _]. set_solver.
  - intros op value x Hx. split.
    + rewrite (satisfies_numeric facts "cgpa" op value (VFloat cgpa)).
      * simpl. by rewrite Hx.
      * unfold facts, app_facts. apply lookup_insert_eq.
      * apply orb_true_r.
    + rewrite (satisfies_numeric facts "family_income" op value
                 (VFloat family_income)).
      * simpl. by rewrite Hx.
      * unfold facts, app_facts.
        rewrite lookup_insert_ne by done. apply lookup_insert_eq.
      * apply orb_true_r.
Qed.

Lemma app_facts_conditions_witness :
  evaluate_rule
    {| name := None; priority := None; action := None;
       conditions := Some [ [VStr "gpa"; VStr "!="; VInt 0] ] |}
    (app_facts 3 5000 50 0 1 0) = false
  ∧ satisfies [VStr "cgpa"; VStr ">="; VStr "2.5"]
      (app_facts 3 5000 50 0 1 0)
    = holds (compare_with (VStr ">=") (VFloat 3) (VFloat 2.5)).
Proof.
  split.
  - apply (proj1 (app_facts_conditions 3 5000 50 0 1 0) _
             (VStr "gpa") (VStr "!=") (VInt 0)).
    + apply list_elem_of_here.
    + vm_compute. intros Hin.
      repeat (apply elem_of_cons in Hin as [Hin | Hin]; [discriminate Hin|]).
      by apply elem_of_nil in Hin.
  - apply (proj2 (app_facts_conditions 3 5000 50 0 1 0)
             (VStr ">=") (VStr "2.5") 2.5%float).
    vm_compute. reflexivity.
Defined.

(** X13. What the button shows.  Without rules it is the warning
    alone; with rules none of which matches, the NO_DECISION notice
    alone; otherwise the success line, announcing as many rules as
    match in the rule set, followed by the five lines of each rule of
    the result.  In every case there is one headline and five lines
    for each matching rule. *)
Theorem on_evaluate_shows (rules : list rule) (facts : gmap string value) :
  let matching := filter (λ r, evaluate_rule r facts = true) rules in
  (rules = [] →
   on_evaluate rules facts
   = [warning "No rules available. Please paste valid rules JSON."])
  ∧ (rules ≠ [] → matching = [] →
     on_evaluate rules facts
     = [info "No matching rules. Decision: NO_DECISION"])
  ∧ (matching ≠ [] →
     on_evaluate rules facts
     = success (str_of_nat (length matching)
                +:+ " rule(s) matched. Showing highest-priority match first.")
       :: mjoin (show_rule <$> run_rules rules facts))
  ∧ length (on_evaluate rules facts) = S (5 * length matching).
Proof.
  intros matching.
  pose proof (run_rules_perm rules facts) as Hperm. fold matching in Hperm.
  assert (rules ≠ [] → matching = [] →
          on_evaluate rules facts
          = [info "No matching rules. Decision: NO_DECISION"]) as Hnone.
  { intros Hr Hm. unfold on_evaluate. destruct rules as [|r0 rules']; [done|].
    rewrite Hm in Hperm. apply Permutation_nil_r in Hperm.
    by rewrite Hperm. }
  assert (matching ≠ [] →
          on_evaluate rules facts
          = success (str_of_nat (length matching)
               +:+ " rule(s) matched. Showing highest-priority match first.")
            :: mjoin (show_rule <$> run_rules rules facts)) as Hsome.
  { intros Hm. unfold on_evaluate.
    destruct rules as [|r0 rules']; [done|].
    rewrite <-(Permutation_length Hperm).
    destruct (run_rules (r0 :: rules') facts) as [|top rest] eqn:Hrun;
      [|done].
    by apply Permutation_nil in Hperm. }
  split_and!; [by intros ->|done|done|].
  destruct rules as [|r0 rules']; [done|].
  destruct (decide (matching = [])) as [Hm | Hm].
  - rewrite (Hnone ltac:(done) Hm), Hm. done.
  - rewrite (Hsome Hm). cbn [length]. rewrite show_rules_length.
    by rewrite (Permutation_length Hperm).
Qed.

Lemma on_evaluate_shows_witness :
  on_evaluate [] Examples.applicant
  = [warning "No rules available. Please paste valid rules JSON."]
  ∧ on_evaluate [Examples.R1] ∅
    = [info "No matching rules. Decision: NO_DECISION"]
  ∧ on_evaluate [Examples.A; Examples.R1] Examples.applicant
    = success "2 rule(s) matched. Showing highest-priority match first."
      :: mjoin (show_rule <$>
                run_rules [Examples.A; Examples.R1] Examples.applicant).
Proof.
  split_and!.
  - apply (proj1 (on_evaluate_shows [] Examples.applicant)). reflexivity.
  - apply (proj1 (proj2 (on_evaluate_shows [Examples.R1] ∅))).
    + discriminate.
    + vm_compute. reflexivity.
  - apply (proj1 (proj2 (proj2 (on_evaluate_shows
             [Examples.A; Examples.R1] Examples.applicant)))).
    vm_compute. discriminate.
Defined.

(** X14. Two strings are never converted, even when both read as
    numbers: the condition is decided by the order of the strings, so
    that the fact ["10"] is below the literal ["9"]. *)
Theorem strings_compare_as_strings
    (facts : gmap string value) (field s t : string) :
  facts !! field = Some (VStr s) →
  satisfies [VStr field; VStr "=="; VStr t] facts = String.eqb s t
  ∧ satisfies [VStr field; VStr "!="; VStr t] facts = negb (String.eqb s t)
  ∧ satisfies [VStr field; VStr "<"; VStr t] facts
    = match String.compare s t with Lt => true | _ => false end
  ∧ satisfies [VStr field; VStr "<="; VStr t] facts
    = match String.compare s t with Gt => false | _ => true end
  ∧ satisfies [VStr field; VStr ">"; VStr t] facts
    = match String.compare s t with Gt => true | _ => false end
  ∧ satisfies [VStr field; VStr ">="; VStr t] facts
    = match String.compare s t with Lt => false | _ => true end.
Proof.
  intros Hf.
  rewrite !(satisfies_direct facts field _ (VStr t) (VStr s) Hf) by done.
  destruct (compare_with_table (VStr s) (VStr t))
    as (-> & -> & -> & -> & -> & ->).
  unfold operator.eq, operator.ne, operator.ge, operator.le,
    operator.gt, operator.lt. simpl.
  split_and!; try done; by destruct (String.compare s t).
Qed.

Lemma strings_compare_as_strings_witness :
  satisfies [VStr "level"; VStr "<"; VStr "9"]
    {[ "level"%string := VStr "10" ]} = true.
Proof.
  refine (proj1 (proj2 (proj2 (strings_compare_as_strings
            {[ "level"%string := VStr "10" ]} "level" "10" "9" _)))).
  vm_compute. reflexivity.
Defined.

(** ** Rule objects *)

Lemma OPERATORS_json_lookup (s : string) :
  Json.OPERATORS_json !! s =
    if decide ("==" = s)%string
    then Some (Json.against operator.eq (Ok false))
    else if decide ("!=" = s)%string
    then Some (Json.against operator.ne (Ok true))
    else if decide (">=" = s)%string
    then Some (Json.against operator.ge (Raise TypeError))
    else if decide ("<=" = s)%string
    then Some (Json.against operator.le (Raise TypeError))
    else if decide (">" = s)%string
    then Some (Json.against operator.gt (Raise TypeError))
    else if decide ("<" = s)%string
    then Some (Json.against operator.lt (Raise TypeError))
    else None.
Proof.
  unfold Json.OPERATORS_json. cbn [list_to_map foldr uncurry fst snd].
  rewrite !lookup_insert. repeat case_decide; try done.
Qed.

(** The table of the rule objects is the table of the scalars. *)
Lemma item_OPERATORS_json (op : value) :
  match getitem OPERATORS op with
  | Ok f => ∃ c, Json.item Json.OPERATORS_json (Json.of_value op)
                 = Ok (Json.against f c)
  | Raise e => Json.item Json.OPERATORS_json (Json.of_value op) = Raise e
  end.
Proof.
  destruct op as [| | | |s]; try done. simpl.
  rewrite OPERATORS_lookup, OPERATORS_json_lookup.
  repeat case_decide; simpl; eauto.
Qed.

Lemma item_OPERATORS_json_unsupported (op : Json.json) :
  op ∉ Json.JStr <$> supported_operators →
  ∃ e, Json.item Json.OPERATORS_json op = Raise e.
Proof.
  intros Hop. destruct op as [| | | |s| |]; simpl; eauto.
  rewrite OPERATORS_json_lookup.
  repeat case_decide; simpl; eauto; subst; exfalso; apply Hop;
    apply list_elem_of_fmap_2; unfold supported_operators; set_solver.
Qed.

Lemma condition_attempt_steps facts field op value s :
  Json.condition_attempt facts field op value = Ok s →
  s = Continue ∨ s = Return false.
Proof.
  unfold Json.condition_attempt, Json.direct_attempt.
  destruct (Json.item facts field) as [left|]; simpl; [|done].
  assert (∀ r : result step,
    r = Json.direct_attempt op left value →
    r = Ok s → s = Continue ∨ s = Return false) as Hdirect.
  { intros r ->. unfold Json.direct_attempt.
    destruct (Json.item Json.OPERATORS_json op) as [f|]; simpl; [|done].
    destruct (f left value) as [[]|]; simpl; intros [= <-]; auto. }
  destruct (_ || _); [|by apply Hdirect].
  destruct (Json.numeric_attempt op left value) as [[]|];
    [intros [= <-]; auto..|by apply Hdirect].
Qed.

(** A well-formed condition ends its pass without an exception. *)
Lemma pass_well_formed facts cond :
  Json.well_formed_condition cond →
  Json.pass facts cond = Ok Continue
  ∨ Json.pass facts cond = Ok (Return false).
Proof.
  destruct cond as [| | | | |items|]; try done. intros Hwf.
  unfold Json.pass, Json.len. cbn [Json.iter]. simpl.
  destruct items as [|field [|op [|value [|? ?]]]]; simpl; auto.
  simpl in Hwf.
  assert (∃ b, Json.member facts field = Ok b) as [b ->].
  { destruct field; try done; simpl; eauto. }
  simpl. destruct b; simpl; [|auto].
  destruct (Json.condition_attempt facts field op value) as [s|] eqn:Hc;
    [|auto].
  destruct (condition_attempt_steps _ _ _ _ _ Hc) as [-> | ->]; auto.
Qed.

Lemma pass_fails facts items :
  Json.well_formed_condition (Json.JList items) →
  Json.fails facts items →
  Json.pass facts (Json.JList items) = Ok (Return false).
Proof.
  intros Hwf Hbad. unfold Json.pass, Json.len. cbn [Json.iter]. simpl.
  destruct Hbad as [Hlen | (field & op & value & -> & Hbad)].
  { destruct items as [|? [|? [|? [|? ?]]]]; simpl in *; done. }
  simpl in *. destruct Hbad as [-> | [Hop | [e He]]]; [done|..].
  - assert (∃ b, Json.member facts field = Ok b) as [b ->].
    { destruct field; try done; simpl; eauto. }
    simpl. destruct b; simpl; [|done].
    unfold Json.condition_attempt.
    destruct (Json.item facts field) as [left|]; simpl; [|done].
    destruct (item_OPERATORS_json_unsupported op Hop) as [e He].
    assert (∃ e', Json.numeric_attempt op left value = Raise e')
      as [e' ->].
    { unfold Json.numeric_attempt.
      destruct (py_float left); simpl; [|eauto].
      destruct (Json.float_of value); simpl; [|eauto].
      rewrite He. simpl. eauto. }
    unfold Json.direct_attempt. rewrite He. simpl.
    by destruct (_ || _).
  - assert (∃ b, Json.member facts field = Ok b) as [b ->].
    { destruct field; try done; simpl; eauto. }
    simpl. rewrite He. by destruct b.
Qed.

Lemma passes_well_formed facts conds :
  Forall Json.well_formed_condition conds →
  (∃ b, Json.passes facts conds = Ok b)
  ∧ ∀ cond, cond ∈ conds → Json.pass facts cond = Ok (Return false) →
            Json.passes facts conds = Ok false.
Proof.
  induction 1 as [|c conds Hc _ [[b IHb] IH]].
  { split; [by exists true|]. intros cond Hin. by apply elem_of_nil in Hin. }
  cbn [Json.passes].
  destruct (pass_well_formed facts c Hc) as [Hp | Hp]; rewrite Hp; simpl.
  - split; [eauto|]. intros cond Hin Hcond.
    apply elem_of_cons in Hin as [-> | Hin]; [congruence|]. by eapply IH.
  - split; [eauto|done].
Qed.

Lemma insert_by_lt_integers {A} (key : A → value) (x : A) (l : list A) :
  (∃ z, key x = VInt z) → Forall (λ y, ∃ z, key y = VInt z) l →
  ∃ l', Json.insert_by_lt key x l = Ok l' ∧ l' ≡ₚ x :: l.
Proof.
  intros [a Ha]. induction 1 as [|y l [b Hb] _ (l' & IH & Hp)]; simpl.
  { eauto. }
  rewrite Ha, Hb. unfold operator.lt, py_order. simpl.
  destruct (a ?= b)%Z; simpl; eauto.
  rewrite IH. simpl. eexists. split; [done|].
  rewrite Hp. apply Permutation_swap.
Qed.

Lemma sorted_by_lt_integers {A} (key : A → value) (l : list A) :
  Forall (λ y, ∃ z, key y = VInt z) l →
  ∃ l', Json.sorted_by_lt key l = Ok l' ∧ l' ≡ₚ l.
Proof.
  induction 1 as [|x l Hx Hall (l' & IH & Hp)]; simpl.
  { by exists []. }
  unfold Json.sorted_by_lt in *. cbn [foldr]. rewrite IH. simpl.
  destruct (insert_by_lt_integers key x l' Hx) as (l'' & Hi & Hp').
  { by rewrite Hp. }
  exists l''. split; [done|]. by rewrite Hp', Hp.
Qed.

Lemma for_rules_definite facts rs matched :
  Forall (λ r, ∃ b, Json.evaluate_rule r facts = Ok b) rs →
  ∃ out, Json.for_rules facts rs matched = Ok out.
Proof.
  intros Hall. revert matched.
  induction Hall as [|r rs [b Hb] _ IH]; intros matched; simpl; [eauto|].
  rewrite Hb. simpl. apply IH.
Qed.

Lemma evaluate_rule_well_formed (r : Json.rule) facts :
  Json.well_formed_conditions r →
  ∃ b, Json.evaluate_rule r facts = Ok b.
Proof.
  unfold Json.well_formed_conditions, Json.evaluate_rule.
  destruct (Json.conditions r) as [[| | | | |conds|]|]; try done; simpl.
  - intros Hwf. apply passes_well_formed, Hwf.
  - by exists true.
Qed.

(** On rules of scalars with integer priorities the functions on rule
    objects return what [evaluate_rule] and [run_rules] compute. *)
Lemma against_of_value f c a b :
  Json.against f c a (Json.of_value b) = f a b.
Proof. by destruct b. Qed.

Lemma float_of_of_value v : Json.float_of (Json.of_value v) = py_float v.
Proof. by destruct v. Qed.

Lemma numeric_attempt_of_value (op left value : value) :
  Json.numeric_attempt (Json.of_value op) left (Json.of_value value)
  = numeric_try op left value.
Proof.
  unfold Json.numeric_attempt, numeric_try.
  destruct (py_float left) as [l|]; simpl; [|done].
  rewrite float_of_of_value.
  destruct (py_float value) as [r|]; simpl; [|done].
  pose proof (item_OPERATORS_json op) as Hop.
  destruct (getitem OPERATORS op) as [f|e]; simpl.
  - destruct Hop as [c ->]. simpl.
    apply (against_of_value f c (VFloat l) (VFloat r)).
  - by rewrite Hop.
Qed.

Lemma direct_attempt_of_value (op left value : value) :
  Json.direct_attempt (Json.of_value op) left (Json.of_value value)
  = direct_try op left value.
Proof.
  unfold Json.direct_attempt, direct_try.
  pose proof (item_OPERATORS_json op) as Hop.
  destruct (getitem OPERATORS op) as [f|e]; simpl.
  - destruct Hop as [c ->]. simpl. by rewrite against_of_value.
  - by rewrite Hop.
Qed.

Lemma condition_attempt_of_value facts (field op value : value) :
  Json.condition_attempt facts (Json.of_value field) (Json.of_value op)
    (Json.of_value value)
  = condition_try facts field op value.
Proof.
  unfold Json.condition_attempt, condition_try.
  assert (Json.item facts (Json.of_value field) = getitem facts field)
    as -> by by destruct field.
  destruct (getitem facts field) as [left|]; simpl; [|done].
  assert (Json.is_int_float (Json.of_value value)
          = isinstance_int_float value) as -> by by destruct value.
  by rewrite numeric_attempt_of_value, direct_attempt_of_value.
Qed.

Lemma pass_to_json facts (cond : list value) :
  Json.pass facts (condition_to_json cond) = Ok (loop_body facts cond).
Proof.
  unfold Json.pass, Json.len, condition_to_json, loop_body.
  cbn [Json.iter]. simpl. rewrite length_fmap.
  destruct cond as [|field [|op [|value [|? ?]]]]; try done. simpl.
  assert (Json.member facts (Json.of_value field)
          = Ok (contains facts field)) as -> by by destruct field.
  simpl. destruct (contains facts field); simpl; [|done].
  by rewrite condition_attempt_of_value.
Qed.

Lemma passes_to_json facts (conds : list (list value)) :
  Json.passes facts (condition_to_json <$> conds)
  = Ok (for_conditions facts conds).
Proof.
  induction conds as [|cond conds IH]; [done|].
  rewrite fmap_cons. cbn [Json.passes for_conditions].
  rewrite pass_to_json. simpl. by destruct (loop_body facts cond).
Qed.

Lemma evaluate_rule_to_json (r : rule) facts :
  Json.evaluate_rule (rule_to_json r) facts = Ok (evaluate_rule r facts).
Proof.
  unfold Json.evaluate_rule, evaluate_rule, rule_to_json. simpl.
  destruct (conditions r) as [conds|]; simpl; [|done].
  apply passes_to_json.
Qed.

Lemma insert_by_lt_to_json (x : rule) (l : list rule) :
  Json.insert_by_lt Json.priority_of (rule_to_json x) (rule_to_json <$> l)
  = Ok (rule_to_json <$> insert_sorted priority_key true x l).
Proof.
  assert (∀ r, Json.priority_of (rule_to_json r) = VInt (priority_key r))
    as Hkey.
  { intros r. unfold Json.priority_of, priority_key, rule_to_json. simpl.
    by destruct (priority r). }
  induction l as [|y l IH]; [done|].
  rewrite fmap_cons. cbn [Json.insert_by_lt insert_sorted].
  rewrite !Hkey, IH. unfold operator.lt, py_order, in_front. simpl.
  rewrite Z.leb_compare, (Z.compare_antisym (priority_key x)).
  by destruct (priority_key x ?= priority_key y)%Z.
Qed.

Lemma sorted_by_lt_to_json (l : list rule) :
  Json.sorted_by_lt Json.priority_of (rule_to_json <$> l)
  = Ok (rule_to_json <$> sorted priority_key true l).
Proof.
  unfold Json.sorted_by_lt, sorted.
  induction l as [|x l IH]; [done|].
  rewrite fmap_cons. cbn [foldr]. rewrite IH. simpl.
  apply insert_by_lt_to_json.
Qed.

Lemma for_rules_to_json facts (rs matched : list rule) :
  Json.for_rules facts (rule_to_json <$> rs) (rule_to_json <$> matched)
  = Ok (rule_to_json <$>
        fold_left
          (fun matched r =>
             if evaluate_rule r facts then matched ++ [r] else matched)
          rs matched).
Proof.
  revert matched. induction rs as [|r rs IH]; intros matched; [done|].
  rewrite fmap_cons. cbn [Json.for_rules fold_left].
  rewrite evaluate_rule_to_json. simpl.
  destruct (evaluate_rule r facts); [|apply IH].
  rewrite <-IH. by rewrite fmap_app.
Qed.

Lemma run_rules_to_json (rules : list rule) facts :
  Json.run_rules (rule_to_json <$> rules) facts
  = Ok (rule_to_json <$> run_rules rules facts).
Proof.
  unfold Json.run_rules, run_rules. rewrite sorted_by_lt_to_json. simpl.
  apply (for_rules_to_json facts _ []).
Qed.

(** ** The claim on malformed rule data *)

(** C1, as amended.  For every rule object whose conditions, when
    present, are a list of lists in which the field of a list of three
    elements is hashable, and for every fact set, condition evaluation
    fails closed and does not raise: a condition that does not have
    exactly three elements, whose field is absent from the facts, whose
    operator is not one of the six supported ones, or whose comparison
    raises, ends its pass with [return False], and [evaluate_rule]
    returns a definite boolean.  [run_rules] over such rules with
    integer or missing priorities returns a definite list. *)
Theorem well_formed_rules_fail_closed :
  (∀ (r : Json.rule) (facts : gmap string value),
     Json.well_formed_conditions r →
     (∃ b, Json.evaluate_rule r facts = Ok b)
     ∧ ∀ conds items,
         Json.conditions r = Some (Json.JList conds) →
         Json.JList items ∈ conds →
         Json.fails facts items →
         Json.pass facts (Json.JList items) = Ok (Return false)
         ∧ Json.evaluate_rule r facts = Ok false)
  ∧ (∀ (rules : list Json.rule) (facts : gmap string value),
       Forall (λ r, Json.well_formed_conditions r ∧ Json.integer_priority r)
         rules →
       ∃ matched, Json.run_rules rules facts = Ok matched).
Proof.
  split.
  - intros r facts Hwf. split; [by apply evaluate_rule_well_formed|].
    intros conds items Hconds Hin Hbad.
    unfold Json.well_formed_conditions in Hwf.
    unfold Json.evaluate_rule. rewrite Hconds in *. simpl.
    assert (Json.well_formed_condition (Json.JList items)) as Hitem.
    { rewrite Forall_forall in Hwf. by apply Hwf. }
    pose proof (pass_fails facts items Hitem Hbad) as Hpass.
    split; [done|].
    by apply (proj2 (passes_well_formed facts conds Hwf) (Json.JList items)).
  - intros rules facts Hall. unfold Json.run_rules.
    destruct (sorted_by_lt_integers Json.priority_of rules)
      as (sorted_rules & -> & Hp).
    { eapply Forall_impl; [exact Hall|]. intros r [_ Hr].
      unfold Json.integer_priority, Json.priority_of in *.
      destruct (Json.priority r) as [[]|]; simpl; try done; eauto. }
    simpl. apply for_rules_definite.
    rewrite Hp. eapply Forall_impl; [exact Hall|].
    intros r [Hr _]. by apply evaluate_rule_well_formed.
Qed.

Lemma well_formed_rules_fail_closed_witness :
  let cond := [Json.JStr "score"; Json.JStr ">="; Json.JInt 50] in
  let r := {| Json.name := None; Json.priority := Some (VInt 3);
              Json.action := None;
              Json.conditions := Some (Json.JList [Json.JList cond]) |} in
  let facts : gmap string value := {[ "score"%string := VStr "abc" ]} in
  (Json.pass facts (Json.JList cond) = Ok (Return false)
   ∧ Json.evaluate_rule r facts = Ok false)
  ∧ ∃ matched, Json.run_rules [r] facts = Ok matched.
Proof.
  intros cond r facts. split.
  - apply (proj2 (proj1 well_formed_rules_fail_closed r facts
                    ltac:(repeat constructor))
             [Json.JList cond] cond eq_refl).
    + apply list_elem_of_here.
    + right. exists (Json.JStr "score"), (Json.JStr ">="), (Json.JInt 50).
      split; [reflexivity|]. right. right. exists TypeError.
      vm_compute. reflexivity.
  - apply (proj2 well_formed_rules_fail_closed [r] facts).
    repeat constructor.
Defined.

(** C1 as stated does not hold of every rule: a condition that is not
    a list, string or object makes [len] raise, an unhashable field
    makes the membership test raise, both outside the [try] blocks, and
    priorities that do not compare make [sorted] raise; [run_rules]
    lets each of these exceptions through. *)
Lemma malformed_rules_raise :
  let not_sized :=
    {| Json.name := None; Json.priority := None; Json.action := None;
       Json.conditions := Some (Json.JList [Json.JInt 5]) |} in
  let unhashable_field :=
    {| Json.name := None; Json.priority := None; Json.action := None;
       Json.conditions :=
         Some (Json.JList
                 [Json.JList [Json.JList [Json.JStr "cgpa"];
                              Json.JStr "=="; Json.JInt 1]]) |} in
  let priority p :=
    {| Json.name := None; Json.priority := Some p; Json.action := None;
       Json.conditions := None |} in
  Json.evaluate_rule not_sized Examples.applicant = Raise TypeError
  ∧ Json.evaluate_rule unhashable_field Examples.applicant = Raise TypeError
  ∧ Json.run_rules [not_sized] Examples.applicant = Raise TypeError
  ∧ Json.run_rules [unhashable_field] Examples.applicant = Raise TypeError
  ∧ Json.run_rules [priority (VStr "high"); priority (VInt 1)]
      Examples.applicant = Raise TypeError.
Proof. intros. split_and!; vm_compute; reflexivity. Qed.
